(** * ge-utility: rule translation, configuration loading and the
      per-table validation pass of [main.py]

    The script talks to two external systems (the warehouse client and the
    validation engine).  Their behaviour is not part of the repository, so
    every call into them is an _event_: the program asks an oracle for the
    outcome of the call (a returned value or a raised exception) and the
    call is recorded, with its outcome, in the history of the run.  The
    Python code between those calls is embedded as it is written. *)

From Stdlib Require Import ZArith Ascii String List Lia.
From Stdlib Require Import Floats.SpecFloat.
From stdpp Require Import gmap strings list fin_maps.

#[local] Set Warnings "-register-all".

(** ** Python values *)

(** The objects the script handles: what [json.loads] can return and what
    a cell of the frame can hold.  A JSON object is a [dict] with string
    keys; the order of its keys plays no part in this program. *)
Inductive value : Type :=
| VNone
| VBool (b : bool)
| VInt (z : Z)
| VFloat (f : spec_float)
| VStr (s : string)
| VList (l : list value)
| VDict (d : gmap string value).

(** Python truth value of an object ([if x]). *)
Definition is_truthy (v : value) : bool :=
  match v with
  | VNone => false
  | VBool b => b
  | VInt z => negb (z =? 0)%Z
  | VFloat (S754_zero _) => false
  | VFloat _ => true
  | VStr s => negb (String.eqb s "")
  | VList l => match l with [] => false | _ => true end
  | VDict d => negb (Nat.eqb (size d) 0)
  end.

(** ** Letter case

    [str.lower] belongs to the interpreter and follows the Unicode tables;
    the script takes it from there (the variable [str_lower] of the
    section below).  What is written out here is its restriction to text
    made of ASCII characters only, on which it maps the letters A-Z to
    a-z and keeps every other character. *)

(** One of the letters A-Z. *)
Definition is_capital (c : ascii) : bool :=
  ((65 <=? N_of_ascii c) && (N_of_ascii c <=? 90))%N.

Definition ascii_lower (c : ascii) : ascii :=
  if is_capital c then ascii_of_N (N_of_ascii c + 32) else c.

Fixpoint lower_ascii (s : string) : string :=
  match s with
  | EmptyString => EmptyString
  | String c s' => String (ascii_lower c) (lower_ascii s')
  end.

(** [str.isascii]. *)
Fixpoint isascii (s : string) : bool :=
  match s with
  | EmptyString => true
  | String c s' => (N_of_ascii c <? 128)%N && isascii s'
  end.

(** Two characters that are equal, or are one letter of A-Z in its two
    cases. *)
Definition same_letter (a b : ascii) : bool :=
  (N_of_ascii a =? N_of_ascii b)%N
  || (is_capital a && (N_of_ascii b =? N_of_ascii a + 32)%N)
  || (is_capital b && (N_of_ascii a =? N_of_ascii b + 32)%N).

(** Two texts that are equal up to the case of their letters: they have
    the same length and, at every position, the same letter. *)
Fixpoint same_up_to_case (s1 s2 : string) : bool :=
  match s1, s2 with
  | EmptyString, EmptyString => true
  | String a s1', String b s2' => same_letter a b && same_up_to_case s1' s2'
  | _, _ => false
  end.

(** [f"{x}"] of a value that is a string or [None]. *)
Definition fmt (o : option string) : string :=
  match o with
  | Some s => s
  | None => "None"
  end.

(** ** Exceptions and outcomes *)

(** A raised Python exception.  [is_exception] tells whether it derives
    from [Exception] (what [except Exception] catches) or only from
    [BaseException] ([KeyboardInterrupt], [SystemExit]); [message] is
    [str(e)]. *)
Record exn : Type := Exn { is_exception : bool; message : string }.

Inductive outcome (A : Type) : Type :=
| Ok (a : A)
| Raise (e : exn).
Arguments Ok {A} a.
Arguments Raise {A} e.

Definition is_ok {A} (o : outcome A) : bool :=
  match o with Ok _ => true | Raise _ => false end.

(** ** The external world *)

(** References to objects owned by the external libraries (connection,
    data context, datasource, asset, validator, bound method, checkpoint,
    checkpoint result). *)
Definition handle : Type := nat.

(** One row of the frame read from [TABLE_VALIDATION_CONFIG].  The cells
    [column_name] and [params_json] are the objects the frame holds, which
    the script tests for truth (lines 22 and 71): a [str] for a text and,
    for a SQL NULL, whatever the reader of the frame puts there ([None] or
    the float [nan], by its version).  The cells [table_name] and
    [expectation_type] are taken to hold text. *)
Record row : Type := Row {
  table_name : string;
  column_name : value;
  expectation_type : string;
  params_json : value
}.

(** A row of [TABLE_VALIDATION_CONFIG] as the warehouse stores it: the
    four columns the loader asks for (as a frame shows them) and the flag
    [is_enabled], which is TRUE, FALSE or NULL ([None]). *)
Record config_row : Type := ConfigRow {
  selected_columns : row;
  is_enabled : option bool
}.

(** The object returned by [validator.validate()]; only its [success]
    attribute is read. *)
Record validation_result : Type := ValidationResult { success : bool }.

(** The calls the script makes into external code, indexed by what the
    call gives back to the script. *)
Inductive call : Type -> Type :=
| SnowflakeConnect (user password account database schema warehouse : option string)
    : call handle
| ReadSql (query : string) (conn : handle) : call (list row)
| ConnClose (conn : handle) : call unit
| Print (text : string) : call unit
| GetContext : call handle
| AddOrUpdateSnowflake (context : handle) (name connection_string : string) : call unit
| GetDatasource (context : handle) (name : string) : call handle
| AddTableAsset (datasource : handle) (name table schema : string) : call handle
| GetExpectationSuite (context : handle) (name : string) : call unit
| AddExpectationSuite (context : handle) (name : string) : call unit
| GetValidator (context : handle) (datasource_name data_asset_name suite_name : string)
    : call handle
| GetAttr (validator : handle) (name : string) : call handle
| CallMethod (method : handle) (args : list value) (kwargs : gmap string value)
    : call unit
| SaveExpectationSuite (validator : handle) (discard_failed_expectations : bool)
    : call unit
| AddOrUpdateCheckpoint (context : handle) (name : string) (validator : handle)
    : call handle
| CheckpointRun (checkpoint : handle) : call handle
| Validate (validator : handle) : call validation_result
| BuildDataDocs (context : handle) (site_names : list string) : call unit
| OpenDataDocs (context : handle) : call unit.

(** A call together with its outcome. *)
Inductive event : Type :=
| Event {T : Type} (c : call T) (o : outcome T).

Definition history : Type := list event.

(** The kind of operation of a call, without its arguments. *)
Inductive op : Type :=
| OpConnect | OpReadSql | OpClose | OpPrint | OpGetContext | OpAddSource
| OpGetDatasource | OpAddAsset | OpGetSuite | OpAddSuite | OpGetValidator
| OpGetAttr | OpCallMethod | OpSaveSuite | OpAddCheckpoint | OpRunCheckpoint
| OpValidate | OpBuildDocs | OpOpenDocs.

Definition op_of_call {T} (c : call T) : op :=
  match c with
  | SnowflakeConnect _ _ _ _ _ _ => OpConnect
  | ReadSql _ _ => OpReadSql
  | ConnClose _ => OpClose
  | Print _ => OpPrint
  | GetContext => OpGetContext
  | AddOrUpdateSnowflake _ _ _ => OpAddSource
  | GetDatasource _ _ => OpGetDatasource
  | AddTableAsset _ _ _ _ => OpAddAsset
  | GetExpectationSuite _ _ => OpGetSuite
  | AddExpectationSuite _ _ => OpAddSuite
  | GetValidator _ _ _ _ => OpGetValidator
  | GetAttr _ _ => OpGetAttr
  | CallMethod _ _ _ => OpCallMethod
  | SaveExpectationSuite _ _ => OpSaveSuite
  | AddOrUpdateCheckpoint _ _ _ => OpAddCheckpoint
  | CheckpointRun _ => OpRunCheckpoint
  | Validate _ => OpValidate
  | BuildDataDocs _ _ => OpBuildDocs
  | OpenDataDocs _ => OpOpenDocs
  end.

Definition op_of (e : event) : op :=
  match e with Event c _ => op_of_call c end.

Definition failed (e : event) : bool :=
  match e with Event _ o => negb (is_ok o) end.

#[global] Instance op_eq_dec : EqDecision op.
Proof. solve_decision. Defined.

(** ** The monad of the script

    A computation reads the history so far and yields the events it adds
    and its outcome.  An exception ends the computation that raises it. *)
Definition M (A : Type) : Type := history -> list event * outcome A.

Definition ret {A} (a : A) : M A := fun _ => ([], Ok a).

Definition raise {A} (e : exn) : M A := fun _ => ([], Raise e).

Definition bind {A B} (m : M A) (k : A -> M B) : M B :=
  fun h =>
    match m h with
    | (t, Ok a) => let '(t', r) := k a (h ++ t) in (t ++ t', r)
    | (t, Raise e) => (t, Raise e)
    end.

Declare Scope script_scope.
Delimit Scope script_scope with script.
Notation "x <- c ;; k" := (bind c (fun x => k))
  (at level 100, c at next level, right associativity) : script_scope.
Notation "c ;; k" := (bind c (fun _ => k))
  (at level 100, right associativity) : script_scope.
#[local] Open Scope script_scope.

(** A pure library function that may raise. *)
Definition lift {A} (o : outcome A) : M A := fun _ => ([], o).

(** [try: body / except Exception as e: handler e]. *)
Definition try_except {A} (body : M A) (handler : exn -> M A) : M A :=
  fun h =>
    match body h with
    | (t, Ok a) => (t, Ok a)
    | (t, Raise e) =>
        if is_exception e
        then let '(t', r) := handler e (h ++ t) in (t ++ t', r)
        else (t, Raise e)
    end.

(** [try: body / finally: fin].  An exception of [fin] replaces the
    outcome of [body]. *)
Definition try_finally {A} (body : M A) (fin : M unit) : M A :=
  fun h =>
    let '(t, r) := body h in
    let '(t', r') := fin (h ++ t) in
    (t ++ t', match r' with Ok _ => r | Raise e' => Raise e' end).

(** [for x in xs: body x]. *)
Fixpoint for_each {A} (xs : list A) (body : A -> M unit) : M unit :=
  match xs with
  | [] => ret tt
  | x :: xs' => body x ;; for_each xs' body
  end.

(** A translated rule: what [build_expectation_function] returns. *)
Definition closure : Type := handle -> M unit.

(** [grouped[k].append(x)] on a [defaultdict(list)], which keeps its keys
    in order of first insertion. *)
Fixpoint dd_append {A} (grouped : list (string * list A)) (k : string) (x : A)
  : list (string * list A) :=
  match grouped with
  | [] => [(k, [x])]
  | (k', l) :: rest =>
      if decide (k' = k) then (k', l ++ [x]) :: rest
      else (k', l) :: dd_append rest k x
  end.

(** [grouped.get(k)]. *)
Fixpoint dd_get {A} (grouped : list (string * list A)) (k : string) : option (list A) :=
  match grouped with
  | [] => None
  | (k', l) :: rest => if decide (k' = k) then Some l else dd_get rest k
  end.

(** The query of the config loader. *)
Definition query : string :=
  "SELECT table_name, column_name, expectation_type, params_json FROM TABLE_VALIDATION_CONFIG WHERE is_enabled = TRUE".

(** The double quote character, as a string. *)
Definition dq : string := String (ascii_of_nat 34) EmptyString.

(** The text [{"min_value": "2025-01-01", "max_value": "2025-12-02"}]. *)
Definition between_params_json : string :=
  "{" +:+ dq +:+ "min_value" +:+ dq +:+ ": " +:+ dq +:+ "2025-01-01" +:+ dq +:+ ", "
      +:+ dq +:+ "max_value" +:+ dq +:+ ": " +:+ dq +:+ "2025-12-02" +:+ dq +:+ "}".

(** What that text denotes. *)
Definition between_params : gmap string value :=
  <["max_value" := VStr "2025-12-02"]> (<["min_value" := VStr "2025-01-01"]> ∅).

(** The frame built in the [except] branch of the config loader. *)
Definition fallback_df : list row :=
  [ {| table_name := "TEST_DATES";
       column_name := VStr "ID";
       expectation_type := "expect_column_values_to_not_be_null";
       params_json := VStr "{}" |};
    {| table_name := "TEST_DATES";
       column_name := VStr "EVENT_DATE";
       expectation_type := "expect_column_values_to_be_between";
       params_json := VStr between_params_json |} ].

(** Exceptions raised by the interpreter on the script's own expressions. *)
Definition type_error_not_a_mapping : exn :=
  Exn true "TypeError: object is not a mapping".

Definition attribute_error_lower : exn :=
  Exn true "AttributeError: 'NoneType' object has no attribute 'lower'".

(** Raised by [json.loads] on an object that is not a text. *)
Definition type_error_json_input : exn :=
  Exn true "TypeError: the JSON object must be str, bytes or bytearray".

(** ** The configuration query

    The warehouse is not part of the repository; what the loader's
    statement means is fixed by SQL.  The statement is read in its two
    forms, without and with the filter on the flag. *)

(** [WHERE is_enabled = TRUE]: a row is kept when the comparison is true,
    which it is on the flag TRUE only (on NULL it is unknown). *)
Definition enabled (r : config_row) : bool :=
  match is_enabled r with
  | Some true => true
  | _ => false
  end.

Definition select_rules : string :=
  "SELECT table_name, column_name, expectation_type, params_json FROM TABLE_VALIDATION_CONFIG".

(** The rows a statement selects from the stored table, in the order of
    the table; [None] for a statement of another form. *)
Definition selected_by (statement : string) (stored : list config_row)
  : option (list row) :=
  if decide (statement = select_rules)
  then Some (map selected_columns stored)
  else if decide (statement = select_rules +:+ " WHERE is_enabled = TRUE")
  then Some (map selected_columns (filter (fun r => enabled r = true) stored))
  else None.

(** The frame [df] is an answer of the warehouse to [statement]: the rows
    the statement selects, in some order (the statement asks for none). *)
Definition answers (statement : string) (stored : list config_row) (df : list row)
  : Prop :=
  exists rows, selected_by statement stored = Some rows /\ df ≡ₚ rows.

(** The text printed at the end of a table's pass. *)
Definition verdict (result : validation_result) (table : string) : string :=
  "Validation " +:+ (if success result then "passed" else "failed")
                +:+ " for " +:+ table +:+ ".".

(** ** Vocabulary of traces *)

(** The operations that may directly follow a failed call: the [except]
    branch of the failed statement or an enclosing [finally]. *)
Definition recovery (o : op) : list op :=
  match o with
  | OpReadSql => [OpPrint; OpClose]
  | OpPrint => [OpClose]
  | OpGetSuite => [OpAddSuite]
  | _ => []
  end.

(** [R] holds between every two consecutive elements. *)
Fixpoint chain {A} (R : A -> A -> Prop) (l : list A) : Prop :=
  match l with
  | [] => True
  | x :: l' => match l' with [] => True | y :: _ => R x y end /\ chain R l'
  end.

(** The step of the script a call belongs to, in the order of the text:
    the set-up, the loader, then the body of the loop over tables.  The
    script prints at two places, told apart by the text: the warning of
    the loader (line 46) and the verdict of a table (line 137). *)
Definition step_of_call {T} (c : call T) : nat :=
  match c with
  | GetContext => 0
  | SnowflakeConnect _ _ _ _ _ _ => 1
  | ReadSql _ _ => 2
  | Print text => if String.prefix "Validation " text then 19 else 3
  | ConnClose _ => 4
  | AddOrUpdateSnowflake _ _ _ => 5
  | GetDatasource _ _ => 6
  | AddTableAsset _ _ _ _ => 7
  | GetExpectationSuite _ _ => 8
  | AddExpectationSuite _ _ => 9
  | GetValidator _ _ _ _ => 10
  | GetAttr _ _ => 11
  | CallMethod _ _ _ => 12
  | SaveExpectationSuite _ _ => 13
  | AddOrUpdateCheckpoint _ _ _ => 14
  | CheckpointRun _ => 15
  | Validate _ => 16
  | BuildDataDocs _ _ => 17
  | OpenDataDocs _ => 18
  end.

Definition step_of (e : event) : nat :=
  match e with Event c _ => step_of_call c end.

(** The two places where the script goes back: from the call of a check
    to the lookup of the next rule, and from the verdict of a table to the
    asset of the next table. *)
Definition next_iteration (e1 e2 : event) : Prop :=
  (op_of e1 = OpCallMethod /\ op_of e2 = OpGetAttr)
  \/ (step_of e1 = 19 /\ op_of e2 = OpAddAsset).

(** What may come right after a call: a later step of the script, which
    after a failed call is one of its recovery operations; or, after a
    call that returned, the start of the next iteration of a loop. *)
Definition follows (e1 e2 : event) : Prop :=
  (step_of e1 < step_of e2
   /\ (failed e1 = true -> op_of e2 ∈ recovery (op_of e1)))
  \/ (failed e1 = false /\ next_iteration e1 e2).

(** A trace that goes through the script once: no step is taken again
    except to start the next iteration of a loop after a call that
    returned, and a failed call is followed only by its recovery. *)
Definition linear (tr : list event) : Prop := chain follows tr.

(** Every event of [tr] belongs to the steps [lo] to [hi]. *)
Definition within (lo hi : nat) (tr : list event) : Prop :=
  Forall (fun e => lo <= step_of e <= hi) tr.

Definition ends_well (tr : list event) : Prop :=
  match last tr with
  | Some e => failed e = false
  | None => True
  end.

(** How many calls of operation [o] a trace holds. *)
Definition count_op (o : op) (tr : list event) : nat :=
  length (filter (fun e => op_of e = o) tr).

(** The tables for which an asset was added, in order. *)
Definition tables_monitored (tr : list event) : list string :=
  omap (fun e =>
          match e with
          | Event c _ =>
              match c with
              | AddTableAsset _ _ table _ => Some table
              | _ => None
              end
          end) tr.

(** The suite names an event mentions. *)
Definition suites_named (e : event) : list string :=
  match e with
  | Event c _ =>
      match c with
      | GetExpectationSuite _ name => [name]
      | AddExpectationSuite _ name => [name]
      | GetValidator _ _ _ name => [name]
      | _ => []
      end
  end.

(** The validators on which an event looks up a check. *)
Definition validators_used (e : event) : list handle :=
  match e with
  | Event c _ =>
      match c with
      | GetAttr validator _ => [validator]
      | _ => []
      end
  end.

(** The closures [fs] are applied to [validator] one after the other,
    each once, and each returns normally; [tr] is what they do. *)
Inductive rules_applied (validator : handle)
  : history -> list closure -> list event -> Prop :=
| rules_applied_nil h : rules_applied validator h [] []
| rules_applied_cons h f fs t ts :
    f validator h = (t, Ok tt) ->
    rules_applied validator (h ++ t) fs ts ->
    rules_applied validator h (f :: fs) (t ++ ts).

(** The suite is fetched, and created when the fetch raises. *)
Definition suite_ensured (context : handle) (suite : string) (tr : list event) : Prop :=
  tr = [Event (GetExpectationSuite context suite) (Ok tt)]
  \/ exists e, is_exception e = true
               /\ tr = [Event (GetExpectationSuite context suite) (Raise e);
                        Event (AddExpectationSuite context suite) (Ok tt)].

(** ** Sample worlds

    Concrete environments on which the script can be run: every call
    returns normally except those of the operations listed in [fails]. *)

Definition default_return (df : list row) (passed : bool) (h : history)
    {T} (c : call T) : T :=
  match c in call T return T with
  | SnowflakeConnect _ _ _ _ _ _ => length h
  | ReadSql _ _ => df
  | ConnClose _ => tt
  | Print _ => tt
  | GetContext => length h
  | AddOrUpdateSnowflake _ _ _ => tt
  | GetDatasource _ _ => length h
  | AddTableAsset _ _ _ _ => length h
  | GetExpectationSuite _ _ => tt
  | AddExpectationSuite _ _ => tt
  | GetValidator _ _ _ _ => length h
  | GetAttr _ _ => length h
  | CallMethod _ _ _ => tt
  | SaveExpectationSuite _ _ => tt
  | AddOrUpdateCheckpoint _ _ _ => length h
  | CheckpointRun _ => length h
  | Validate _ => ValidationResult passed
  | BuildDataDocs _ _ => tt
  | OpenDataDocs _ => tt
  end.

Definition sample_oracle (fails : op -> option exn) (df : list row) (passed : bool)
  : forall T : Type, history -> call T -> outcome T :=
  fun T h c =>
    match fails (op_of_call c) with
    | Some e => Raise e
    | None => Ok (default_return df passed h c)
    end.

Definition no_failure : op -> option exn := fun _ => None.

Definition failing (o : op) (e : exn) : op -> option exn :=
  fun o' => if decide (o' = o) then Some e else None.

(** A [json.loads] that knows the two texts of the fallback frame and one
    text with a column list. *)
Definition column_list_json : string :=
  "{" +:+ dq +:+ "column_list" +:+ dq +:+ ": [" +:+ dq +:+ "A" +:+ dq +:+ ", "
      +:+ dq +:+ "B" +:+ dq +:+ "]}".

Definition sample_json_loads (s : string) : outcome value :=
  if decide (s = "{}") then Ok (VDict ∅)
  else if decide (s = between_params_json) then Ok (VDict between_params)
  else if decide (s = column_list_json)
       then Ok (VDict {["column_list" := VList [VStr "A"; VStr "B"]]})
  else Raise (Exn true "JSONDecodeError").

Definition sample_environ : gmap string string :=
  <["SNOWFLAKE_USER" := "u"]> (<["SNOWFLAKE_PASSWORD" := "p"]>
  (<["SNOWFLAKE_ACCOUNT" := "acct"]> (<["SNOWFLAKE_DATABASE" := "DB"]>
  (<["SNOWFLAKE_SCHEMA" := "PUBLIC"]> (<["SNOWFLAKE_WAREHOUSE" := "WH"]> ∅))))).

Definition sample_df : list row :=
  [ Row "ORDERS" (VStr "ID") "expect_column_values_to_not_be_null" VNone;
    Row "EVENTS" VNone "expect_compound_columns_to_be_unique" (VStr column_list_json);
    Row "ORDERS" (VStr "DAY") "expect_column_values_to_be_between" (VStr between_params_json);
    Row "EVENTS" (VStr "") "expect_table_row_count_to_be_between" (VStr "{}") ].

(** Two tables whose names differ only by letter case. *)
Definition case_df : list row :=
  [ Row "Orders" (VStr "ID") "expect_column_values_to_not_be_null" VNone;
    Row "ORDERS" (VStr "ID") "expect_column_values_to_not_be_null" VNone ].

(** A world in which nothing fails and the query returns [sample_df]. *)
Definition calm_world : forall T : Type, history -> call T -> outcome T :=
  sample_oracle no_failure sample_df true.

(** A world in which the configuration query raises. *)
Definition query_fails : forall T : Type, history -> call T -> outcome T :=
  sample_oracle (failing OpReadSql (Exn true "connection reset")) [] true.

(** A world in which the warehouse cannot be reached. *)
Definition connect_fails : forall T : Type, history -> call T -> outcome T :=
  sample_oracle (failing OpConnect (Exn true "login failed")) [] true.

(** A world in which no suite exists yet and validation fails. *)
Definition suite_missing : forall T : Type, history -> call T -> outcome T :=
  sample_oracle (failing OpGetSuite (Exn true "suite not found")) sample_df false.

(** A world whose configuration names the tables of [case_df]. *)
Definition case_world : forall T : Type, history -> call T -> outcome T :=
  sample_oracle no_failure case_df true.

(** Worlds in which several operations fail. *)
Fixpoint failing_ops (l : list (op * exn)) : op -> option exn :=
  fun o =>
    match l with
    | [] => None
    | (o', e) :: l' => if decide (o = o') then Some e else failing_ops l' o
    end.

(** The query is interrupted from the keyboard. *)
Definition query_interrupted : forall T : Type, history -> call T -> outcome T :=
  sample_oracle (failing OpReadSql (Exn false "KeyboardInterrupt")) [] true.

(** The query returns [sample_df] but the connection cannot be closed. *)
Definition close_fails : forall T : Type, history -> call T -> outcome T :=
  sample_oracle (failing OpClose (Exn true "connection lost")) sample_df true.

(** The query raises and so does every [print]. *)
Definition print_fails : forall T : Type, history -> call T -> outcome T :=
  sample_oracle (failing_ops [(OpReadSql, Exn true "connection reset");
                              (OpPrint, Exn true "UnicodeEncodeError")]) [] true.

(** A frame whose second row holds parameters that are not JSON. *)
Definition bad_df : list row :=
  [ Row "ORDERS" (VStr "ID") "expect_column_values_to_not_be_null" VNone;
    Row "ORDERS" (VStr "DAY") "expect_column_values_to_be_between" (VStr "{min_value: 1");
    Row "EVENTS" VNone "expect_table_row_count_to_be_between" (VStr "{}") ].

Definition bad_json_world : forall T : Type, history -> call T -> outcome T :=
  sample_oracle no_failure bad_df true.

(** The configuration table has no enabled row. *)
Definition empty_world : forall T : Type, history -> call T -> outcome T :=
  sample_oracle no_failure [] true.

(** The environment without [SNOWFLAKE_SCHEMA]. *)
Definition environ_without_schema : gmap string string :=
  delete "SNOWFLAKE_SCHEMA" sample_environ.

(** The validator has none of the checks. *)
Definition lookup_fails : forall T : Type, history -> call T -> outcome T :=
  sample_oracle (failing OpGetAttr (Exn true "AttributeError")) sample_df true.

(** Every check raises when called. *)
Definition check_fails : forall T : Type, history -> call T -> outcome T :=
  sample_oracle (failing OpCallMethod (Exn true "column not found")) sample_df true.

(** Fetching a suite is interrupted from the keyboard. *)
Definition fetch_interrupted : forall T : Type, history -> call T -> outcome T :=
  sample_oracle (failing OpGetSuite (Exn false "KeyboardInterrupt")) sample_df true.

(** No suite exists and none can be created. *)
Definition store_read_only : forall T : Type, history -> call T -> outcome T :=
  sample_oracle (failing_ops [(OpGetSuite, Exn true "suite not found");
                              (OpAddSuite, Exn true "store is read-only")])
                sample_df true.

(** A stored table: the rows of [sample_df] are enabled; among them lie a
    disabled row and a row whose flag is NULL. *)
Definition sample_stored : list config_row :=
  [ ConfigRow (Row "ORDERS" (VStr "ID") "expect_column_values_to_not_be_null" VNone)
      (Some true);
    ConfigRow (Row "ORDERS" (VStr "ID") "expect_column_values_to_be_unique" VNone)
      (Some false);
    ConfigRow (Row "EVENTS" VNone "expect_compound_columns_to_be_unique"
                 (VStr column_list_json)) (Some true);
    ConfigRow (Row "ORDERS" (VStr "DAY") "expect_column_values_to_be_between"
                 (VStr between_params_json)) (Some true);
    ConfigRow (Row "USERS" (VStr "ID") "expect_column_values_to_not_be_null" VNone)
      None;
    ConfigRow (Row "EVENTS" (VStr "") "expect_table_row_count_to_be_between"
                 (VStr "{}")) (Some true) ].

(** A stored table whose rows, all enabled, are those of [bad_df]. *)
Definition bad_stored : list config_row :=
  map (fun r => ConfigRow r (Some true)) bad_df.

(** A frame whose only row holds parameters that are a JSON array, and a
    [json.loads] that knows that text too. *)
Definition array_df : list row :=
  [ Row "ORDERS" (VStr "ID") "expect_column_values_to_not_be_null" (VStr "[1]") ].

Definition array_json_loads (s : string) : outcome value :=
  if decide (s = "[1]") then Ok (VList [VInt 1]) else sample_json_loads s.

Definition array_world : forall T : Type, history -> call T -> outcome T :=
  sample_oracle no_failure array_df true.

(** The distinct elements of a list, each at its first occurrence. *)
Fixpoint first_occurrences (l : list string) : list string :=
  match l with
  | [] => []
  | x :: l' => x :: filter (fun y => y ≠ x) (first_occurrences l')
  end.

(** ** The script *)

Section Script.

(** The outcome of every external call, given what happened before. *)
Variable oracle : forall T : Type, history -> call T -> outcome T.

(** [json.loads]. *)
Variable json_loads : string -> outcome value.

(** The process environment, after [load_dotenv()]. *)
Variable environ : gmap string string.

(** [str.lower]. *)
Variable str_lower : string -> string.

(** [f"{table_name.lower()}_suite"]. *)
Definition suite_name_of (table : string) : string := str_lower table +:+ "_suite".

(** [f"{schema_name.lower()}_{table_name.lower()}"]. *)
Definition asset_name_of (schema table : string) : string :=
  str_lower schema +:+ "_" +:+ str_lower table.

(** An external call: ask the oracle and record the call. *)
Definition perform {T} (c : call T) : M T :=
  fun h => let o := oracle T h c in ([Event c o], o).

(** [os.getenv]. *)
Definition getenv (name : string) : option string := environ !! name.

(** [{**params, "result_format": "COMPLETE"} if params else
    {"result_format": "COMPLETE"}] (line 17). *)
Definition full_params_of (params : value) : M (gmap string value) :=
  if is_truthy params then
    match params with
    | VDict d => ret (<["result_format" := VStr "COMPLETE"]> d)
    | _ => raise type_error_not_a_mapping
    end
  else ret {["result_format" := VStr "COMPLETE"]}.

(** [build_expectation_function] (lines 13-30); the result is the inner
    [expectation_func]. *)
Definition build_expectation_function
    (expectation_type : string) (column_name : value) (params : value)
  : closure :=
  fun validator =>
    expectation_method <- perform (GetAttr validator expectation_type) ;;
    full_params <- full_params_of params ;;
    match full_params !! "column_list" with
    | Some column_list =>
        perform (CallMethod expectation_method []
                   (<["column_list" := column_list]>
                      (filter (fun kv => kv.1 ≠ "column_list") full_params)))
    | None =>
        if is_truthy column_name
        then perform (CallMethod expectation_method [column_name] full_params)
        else perform (CallMethod expectation_method [] full_params)
    end.

(** The positional arguments of the call a translated rule makes on a
    parameter dictionary [d]. *)
Definition call_args (column_name : value) (d : gmap string value) : list value :=
  match d !! "column_list" with
  | Some _ => []
  | None => if is_truthy column_name then [column_name] else []
  end.

(** An event that, if it is a call of a check, passes
    [result_format="COMPLETE"]. *)
Definition carries_complete (e : event) : Prop :=
  match e with
  | Event c _ =>
      match c with
      | CallMethod _ _ kwargs => kwargs !! "result_format" = Some (VStr "COMPLETE")
      | _ => True
      end
  end.

(** [json.loads(row["params_json"]) if row["params_json"] else {}]
    (line 71).  [json.loads] parses a text and raises [TypeError] on an
    object of another kind, such as the [nan] of a NULL cell. *)
Definition params_of_row (r : row) : outcome value :=
  if is_truthy (params_json r) then
    match params_json r with
    | VStr s => json_loads s
    | _ => Raise type_error_json_input
    end
  else Ok (VDict ∅).

(** The loop of lines 68-74. *)
Fixpoint group_rows (df : list row) (grouped : list (string * list closure))
  : M (list (string * list closure)) :=
  match df with
  | [] => ret grouped
  | r :: df' =>
      let table := table_name r in
      let column := column_name r in
      params <- lift (params_of_row r) ;;
      group_rows df'
        (dd_append grouped table
           (build_expectation_function (expectation_type r) column params))
  end.

(** [snowflake.connector.connect(user=os.getenv("SNOWFLAKE_USER"), ...)]
    (lines 33-40). *)
Definition connect_call : call handle :=
  SnowflakeConnect
    (getenv "SNOWFLAKE_USER")
    (getenv "SNOWFLAKE_PASSWORD")
    (getenv "SNOWFLAKE_ACCOUNT")
    (getenv "SNOWFLAKE_DATABASE")
    (getenv "SNOWFLAKE_SCHEMA")
    (getenv "SNOWFLAKE_WAREHOUSE").

(** The text printed by the [except] branch (line 46). *)
Definition warning (e : exn) : string :=
  "⚠️ Error loading config from Snowflake: " +:+ message e.

(** [load_config_from_snowflake] (lines 32-75). *)
Definition load_config_from_snowflake : M (list (string * list closure)) :=
  conn <- perform connect_call ;;
  df <- try_finally
          (try_except
             (perform (ReadSql query conn))
             (fun e => perform (Print (warning e)) ;; ret fallback_df))
          (perform (ConnClose conn)) ;;
  group_rows df [].

(** The closure a row is translated to, given its parsed parameters. *)
Definition translate (rp : row * value) : closure :=
  build_expectation_function (expectation_type rp.1) (column_name rp.1) rp.2.

(** The closures of the rows of table [t], in the order of the rows. *)
Definition rules_for (t : string) (rps : list (row * value)) : list closure :=
  map translate (filter (fun rp => table_name rp.1 = t) rps).

(** Lines 112-139: the part of the loop body that follows the
    [try]/[except] on the suite. *)
Definition validate_table (context : handle) (datasource_name asset_name suite_name : string)
    (table_name : string) (expectation_functions : list closure) : M unit :=
  validator <- perform (GetValidator context datasource_name asset_name suite_name) ;;
  for_each expectation_functions (fun func => func validator) ;;
  perform (SaveExpectationSuite validator false) ;;
  checkpoint <- perform (AddOrUpdateCheckpoint context
                           (suite_name +:+ "_checkpoint") validator) ;;
  checkpoint_result <- perform (CheckpointRun checkpoint) ;;
  result <- perform (Validate validator) ;;
  perform (BuildDataDocs context ["local_site"]) ;;
  perform (OpenDataDocs context) ;;
  perform (Print (verdict result table_name)).

(** The body of the loop over tables (lines 100-139). *)
Definition monitor_table (context datasource : handle) (datasource_name : string)
    (schema_name : option string) (item : string * list closure) : M unit :=
  let '(table_name, expectation_functions) := item in
  let suite_name := suite_name_of table_name in
  match schema_name with
  | None => raise attribute_error_lower
  | Some schema =>
      let asset_name := asset_name_of schema table_name in
      table_asset <- perform (AddTableAsset datasource asset_name table_name schema) ;;
      try_except
        (perform (GetExpectationSuite context suite_name))
        (fun _ => perform (AddExpectationSuite context suite_name)) ;;
      validate_table context datasource_name asset_name suite_name
        table_name expectation_functions
  end.

(** The connection string of line 91. *)
Definition connection_string : string :=
  let user := getenv "SNOWFLAKE_USER" in
  let password := getenv "SNOWFLAKE_PASSWORD" in
  let account := getenv "SNOWFLAKE_ACCOUNT" in
  let database := getenv "SNOWFLAKE_DATABASE" in
  let schema_name := getenv "SNOWFLAKE_SCHEMA" in
  let warehouse := getenv "SNOWFLAKE_WAREHOUSE" in
  "snowflake://" +:+ fmt user +:+ ":" +:+ fmt password +:+ "@" +:+ fmt account
    +:+ "/" +:+ fmt database +:+ "/" +:+ fmt schema_name
    +:+ "?warehouse=" +:+ fmt warehouse.

(** [monitor_all_tables] (lines 78-139). *)
Definition monitor_all_tables : M unit :=
  context <- perform GetContext ;;
  expectations_by_table <- load_config_from_snowflake ;;
  let schema_name := getenv "SNOWFLAKE_SCHEMA" in
  let datasource_name := "snowflake_ds" in
  perform (AddOrUpdateSnowflake context datasource_name connection_string) ;;
  datasource <- perform (GetDatasource context "snowflake_ds") ;;
  for_each expectations_by_table
    (monitor_table context datasource datasource_name schema_name).

(** ** Vocabulary of the properties *)

(** The steps of a completed pass over one table, in order; the last one
    prints that the validation passed when the result of [validate] has a
    true [success], and that it failed otherwise. *)
Definition table_pass (context datasource : handle) (datasource_name : string)
    (schema_name : option string) (h : history)
    (item : string * list closure) (tr : list event) : Prop :=
  exists schema asset ensured validator applied checkpoint checkpoint_result result,
    let table := item.1 in
    let suite := suite_name_of table in
    let asset_name := asset_name_of schema table in
    let added := Event (AddTableAsset datasource asset_name table schema) (Ok asset) in
    let bound := Event (GetValidator context datasource_name asset_name suite)
                       (Ok validator) in
    schema_name = Some schema
    /\ suite_ensured context suite ensured
    /\ rules_applied validator (h ++ added :: ensured ++ [bound]) item.2 applied
    /\ tr = added :: ensured ++ bound :: applied ++
            [ Event (SaveExpectationSuite validator false) (Ok tt);
              Event (AddOrUpdateCheckpoint context (suite +:+ "_checkpoint") validator)
                    (Ok checkpoint);
              Event (CheckpointRun checkpoint) (Ok checkpoint_result);
              Event (Validate validator) (Ok result);
              Event (BuildDataDocs context ["local_site"]) (Ok tt);
              Event (OpenDataDocs context) (Ok tt);
              Event (Print (if success result
                            then "Validation passed for " +:+ table +:+ "."
                            else "Validation failed for " +:+ table +:+ "."))
                    (Ok tt) ].

(** In the events [tr] of a table's pass, every suite named is the suite
    of the table, and every validator on which a check is looked up was
    obtained in this pass for that suite. *)
Definition uses_own_suite (item : string * list closure) (tr : list event) : Prop :=
  Forall (fun e => forall name, name ∈ suites_named e -> name = suite_name_of item.1) tr
  /\ Forall (fun e => forall validator, validator ∈ validators_used e ->
               exists context datasource_name asset_name,
                 Event (GetValidator context datasource_name asset_name
                          (suite_name_of item.1)) (Ok validator) ∈ tr) tr.

(** Completed passes over the tables of a configuration, one per table, in
    the order of the configuration. *)
Inductive all_passes (context datasource : handle) (datasource_name : string)
    (schema_name : option string)
  : history -> list (string * list closure) -> list event -> Prop :=
| all_passes_nil h : all_passes context datasource datasource_name schema_name h [] []
| all_passes_cons h item items tr rest :
    table_pass context datasource datasource_name schema_name h item tr ->
    all_passes context datasource datasource_name schema_name (h ++ tr) items rest ->
    all_passes context datasource datasource_name schema_name h (item :: items) (tr ++ rest).

(** A closure made by the rule translator. *)
Definition built (f : closure) : Prop :=
  exists ty col params, f = build_expectation_function ty col params.

(** A computation whose trace is linear and stays within the steps [lo]
    to [hi], and which, when it returns normally, does not end on a
    failed call. *)
Definition tidy {A} (lo hi : nat) (m : M A) : Prop :=
  forall h,
    linear (m h).1 /\ within lo hi (m h).1
    /\ (is_ok (m h).2 = true -> ends_well (m h).1).


(** ** Equations of the monad *)

Lemma perform_eq {T} (c : call T) h :
  perform c h = ([Event c (oracle T h c)], oracle T h c).
Proof. reflexivity. Qed.

Lemma bind_ok {A B} (m : M A) (k : A -> M B) h t a :
  m h = (t, Ok a) ->
  bind m k h = (t ++ fst (k a (h ++ t)), snd (k a (h ++ t))).
Proof. intros Hm. unfold bind. rewrite Hm. by destruct (k a (h ++ t)). Qed.

Lemma bind_raise {A B} (m : M A) (k : A -> M B) h t e :
  m h = (t, Raise e) -> bind m k h = (t, Raise e).
Proof. intros Hm. unfold bind. by rewrite Hm. Qed.

(** A sequence that returns normally is made of two parts that do. *)
Lemma bind_inv_ok {A B} (m : M A) (k : A -> M B) h t b :
  bind m k h = (t, Ok b) ->
  exists t1 a t2, m h = (t1, Ok a) /\ k a (h ++ t1) = (t2, Ok b) /\ t = t1 ++ t2.
Proof.
  unfold bind. destruct (m h) as [t1 [a|e]]; [|discriminate].
  destruct (k a (h ++ t1)) as [t2 r] eqn:Hk. intros [= <- ->].
  by exists t1, a, t2.
Qed.

Lemma perform_inv_ok {T} (c : call T) h t a :
  perform c h = (t, Ok a) -> oracle T h c = Ok a /\ t = [Event c (Ok a)].
Proof. rewrite perform_eq. intros [= <- Ho]. by rewrite Ho. Qed.

Lemma try_except_caught {A} (body : M A) handler h t e :
  body h = (t, Raise e) -> is_exception e = true ->
  try_except body handler h
    = (t ++ (handler e (h ++ t)).1, (handler e (h ++ t)).2).
Proof.
  intros Hb He. unfold try_except. rewrite Hb, He.
  by destruct (handler e (h ++ t)).
Qed.

(** Split a sequence that returned normally, naming its parts. *)
Tactic Notation "inv_seq" hyp(H) "as" ident(t) ident(a) ident(H1) :=
  let t2 := fresh "rest" in
  apply bind_inv_ok in H as (t & a & t2 & H1 & H & ->).

Tactic Notation "inv_call" hyp(H) "as" ident(a) ident(H1) :=
  let t := fresh "t" in
  let t2 := fresh "rest" in
  apply bind_inv_ok in H as (t & a & t2 & H1 & H & ->);
  apply perform_inv_ok in H1 as [H1 ->].

(** ** The rule translator *)

Lemma full_params_of_dict (d : gmap string value) h :
  full_params_of (VDict d) h = ([], Ok (<["result_format" := VStr "COMPLETE"]> d)).
Proof.
  unfold full_params_of. cbn [is_truthy].
  destruct (Nat.eqb (size d) 0) eqn:Hsz; cbn [negb]; [|done].
  apply Nat.eqb_eq, map_size_empty_inv in Hsz. subst d.
  unfold ret. by rewrite insert_empty.
Qed.

(** Taking [column_list] out of the keywords and passing it by name
    gives the same keywords. *)
Lemma column_list_kwargs (fp : gmap string value) cl :
  fp !! "column_list" = Some cl ->
  <["column_list" := cl]> (filter (fun kv => kv.1 ≠ "column_list") fp) = fp.
Proof.
  intros Hcl. apply map_eq. intros k.
  destruct (decide (k = "column_list")) as [->|Hne].
  - by rewrite lookup_insert_eq.
  - rewrite lookup_insert_ne by done.
    destruct (fp !! k) as [x|] eqn:Hk.
    + apply map_lookup_filter_Some. by split.
    + apply map_lookup_filter_None. left. done.
Qed.

(** What a translated rule does when the validator has the method: one
    lookup, then one call. *)
Lemma build_expectation_function_run ty col (d : gmap string value) v h m :
  oracle _ h (GetAttr v ty) = Ok m ->
  let lookup := Event (GetAttr v ty) (Ok m) in
  let c := CallMethod m (call_args col d) (<["result_format" := VStr "COMPLETE"]> d) in
  let o := oracle _ (h ++ [lookup]) c in
  build_expectation_function ty col (VDict d) v h = ([lookup; Event c o], o).
Proof.
  intros Hm lookup c o. unfold build_expectation_function.
  erewrite bind_ok by (rewrite perform_eq, Hm; reflexivity).
  erewrite bind_ok by apply full_params_of_dict.
  rewrite app_nil_r. subst c o. unfold call_args. cbn [fst snd app].
  set (fp := <["result_format" := VStr "COMPLETE"]> d).
  assert (Hfp : fp !! "column_list" = d !! "column_list")
    by (subst fp; by rewrite lookup_insert_ne).
  rewrite Hfp. destruct (d !! "column_list") as [cl|] eqn:Hcl.
  - rewrite column_list_kwargs by (by rewrite Hfp). reflexivity.
  - destruct (is_truthy col); reflexivity.
Qed.

(** A translated rule that returns normally made one lookup on the
    validator and one call of the method it found. *)
Lemma built_inv_ok f validator h t u :
  built f -> f validator h = (t, Ok u) ->
  exists ty m args kwargs,
    t = [Event (GetAttr validator ty) (Ok m); Event (CallMethod m args kwargs) (Ok tt)].
Proof.
  intros (ty & col & params & ->). unfold build_expectation_function. intros H.
  inv_call H as m Hm. inv_seq H as t1 fp Hfp.
  assert (t1 = []) as ->.
  { unfold full_params_of in Hfp. destruct (is_truthy params);
      [destruct params|]; try discriminate; by injection Hfp as <- _. }
  destruct (fp !! "column_list"); [|destruct (is_truthy _)];
    apply perform_inv_ok in H as [Ho ->]; destruct u; by eexists _, _, _, _.
Qed.

(** A translated rule starts with the lookup of its check. *)
Lemma built_head f validator h e :
  built f -> head (f validator h).1 = Some e -> op_of e = OpGetAttr.
Proof.
  intros (ty & col & params & ->). unfold build_expectation_function, bind.
  rewrite perform_eq. destruct (oracle _ h (GetAttr validator ty)) as [m|e'].
  - destruct (full_params_of params _) as [t [fp|e']].
    + destruct (fp !! "column_list"); [|destruct (is_truthy _)];
        rewrite perform_eq; cbn; by intros [= <-].
    + by intros [= <-].
  - by intros [= <-].
Qed.

(** Parameters that are false in Python give the same closure as the
    empty dictionary. *)
Lemma build_expectation_function_falsy ty col params v h :
  is_truthy params = false ->
  build_expectation_function ty col params v h
  = build_expectation_function ty col (VDict ∅) v h.
Proof.
  intros Hfalse. unfold build_expectation_function, bind.
  destruct (perform (GetAttr v ty) h) as [t [m|e]]; [|done].
  rewrite full_params_of_dict. unfold full_params_of. rewrite Hfalse.
  unfold ret. by rewrite insert_empty.
Qed.

(** C1 (as the code has it). For every rule (kind, column, parameters),
    the closure returned by the rule translator, applied to a validator
    that has a method named by the kind, first looks that method up.
    When the parameters are a JSON object [d], or are false in Python and
    then count as the empty object, it calls the method exactly once,
    passing by keyword the parameters of the rule and [result_format].
    The call has one of three shapes, decided by the rule: when the
    parameters hold a [column_list], no positional argument and the
    column list by keyword; when they do not and the column name is true
    in Python (a non-empty text), the column name as the single
    positional argument; otherwise keywords only.  When the parameters
    are true in Python and not an object, the closure raises a
    [TypeError] after the lookup and the method is not called. *)
Theorem translated_rule_calls_its_check ty col params v h m :
  oracle _ h (GetAttr v ty) = Ok m ->
  let lookup := Event (GetAttr v ty) (Ok m) in
  (forall d : gmap string value,
      params = VDict d \/ (is_truthy params = false /\ d = ∅) ->
      exists args kwargs,
        let c := CallMethod m args kwargs in
        let o := oracle _ (h ++ [lookup]) c in
        build_expectation_function ty col params v h = ([lookup; Event c o], o)
        /\ kwargs = <["result_format" := VStr "COMPLETE"]> d
        /\ ((exists cl, d !! "column_list" = Some cl /\ args = []
                        /\ kwargs !! "column_list" = Some cl)
            \/ (d !! "column_list" = None /\ is_truthy col = true /\ args = [col])
            \/ (d !! "column_list" = None /\ is_truthy col = false /\ args = [])))
  /\ (is_truthy params = true -> (forall d, params ≠ VDict d) ->
      build_expectation_function ty col params v h
      = ([lookup], Raise type_error_not_a_mapping)).
Proof.
  intros Hm lookup. split.
  - intros d Hparams.
    exists (call_args col d), (<["result_format" := VStr "COMPLETE"]> d).
    split; [|split; [done|]].
    + destruct Hparams as [->|[Hfalse ->]].
      * by apply build_expectation_function_run.
      * rewrite build_expectation_function_falsy by done.
        by apply build_expectation_function_run.
    + unfold call_args. destruct (d !! "column_list") as [cl|] eqn:Hcl.
      * left. exists cl. by rewrite lookup_insert_ne.
      * right. destruct (is_truthy col); [left|right]; done.
  - intros Htrue Hnot. unfold build_expectation_function.
    erewrite bind_ok by (rewrite perform_eq, Hm; reflexivity).
    erewrite bind_raise; [reflexivity|].
    unfold full_params_of. rewrite Htrue.
    destruct params; try reflexivity. by destruct (Hnot d).
Qed.

(** C8. Every call of a check made by a translated rule passes
    [result_format="COMPLETE"], whatever the parameters of the rule are;
    and on a parameter dictionary, empty or not, with or without a
    [result_format] of its own, the call is made and carries that
    value. *)
Theorem result_format_is_always_complete ty col v h :
  (forall params,
      Forall carries_complete (build_expectation_function ty col params v h).1)
  /\ (forall (d : gmap string value) m,
        oracle _ h (GetAttr v ty) = Ok m ->
        exists args kwargs o,
          build_expectation_function ty col (VDict d) v h
            = ([Event (GetAttr v ty) (Ok m); Event (CallMethod m args kwargs) o], o)
          /\ kwargs !! "result_format" = Some (VStr "COMPLETE")).
Proof.
  split.
  - intros params. unfold build_expectation_function, bind.
    rewrite perform_eq. destruct (oracle _ h (GetAttr v ty)) as [m|e];
      [|by repeat constructor].
    destruct (full_params_of params _) as [t [fp|e]] eqn:Hfp.
    + assert (Hrf : fp !! "result_format" = Some (VStr "COMPLETE") /\ t = []).
      { unfold full_params_of in Hfp.
        destruct (is_truthy params).
        - destruct params; try discriminate. injection Hfp as <- <-.
          by rewrite lookup_insert_eq.
        - injection Hfp as <- <-. by rewrite lookup_singleton_eq. }
      destruct Hrf as [Hrf ->].
      destruct (fp !! "column_list") as [cl|] eqn:Hcl.
      * rewrite perform_eq. cbn. repeat constructor.
        cbn. rewrite lookup_insert_ne by done.
        apply map_lookup_filter_Some. by split.
      * destruct (is_truthy col); rewrite perform_eq; cbn;
          by repeat constructor.
    + unfold full_params_of in Hfp.
      destruct (is_truthy params); [destruct params|]; try discriminate;
        injection Hfp as <- <-; cbn; by repeat constructor.
  - intros d m Hm. eexists _, _, _. split.
    + by apply build_expectation_function_run.
    + by rewrite lookup_insert_eq.
Qed.

(** C9. When the parameters of a rule hold a [column_list], the closure
    does the same whatever the rule's column name is, and its call passes
    that column list by keyword and no positional argument: the
    column-list branch is taken before the column-name branch. *)
Theorem column_list_takes_precedence ty col (d : gmap string value) cl v h :
  d !! "column_list" = Some cl ->
  (forall col', build_expectation_function ty col (VDict d) v h
                = build_expectation_function ty col' (VDict d) v h)
  /\ (forall m, oracle _ h (GetAttr v ty) = Ok m ->
        exists kwargs o,
          build_expectation_function ty col (VDict d) v h
            = ([Event (GetAttr v ty) (Ok m); Event (CallMethod m [] kwargs) o], o)
          /\ kwargs !! "column_list" = Some cl).
Proof.
  intros Hcl. split.
  - intros col'. unfold build_expectation_function, bind.
    destruct (perform _ h) as [t [m|e]]; [|done].
    rewrite full_params_of_dict.
    by rewrite lookup_insert_ne, Hcl.
  - intros m Hm. eexists _, _. split.
    + pose proof (build_expectation_function_run ty col d v h m Hm) as Hrun.
      unfold call_args in Hrun. rewrite Hcl in Hrun. exact Hrun.
    + by rewrite lookup_insert_ne.
Qed.

(** ** The grouping dictionary *)

Lemma dd_get_append {A} (g : list (string * list A)) k x t :
  dd_get (dd_append g k x) t =
    if decide (k = t) then Some (default [] (dd_get g t) ++ [x]) else dd_get g t.
Proof.
  induction g as [|[k' l] g IH]; cbn.
  - destruct (decide (k = t)); done.
  - destruct (decide (k' = k)) as [->|Hk]; cbn.
    + destruct (decide (k = t)); done.
    + rewrite IH. destruct (decide (k' = t)) as [->|Ht]; [|done].
      by rewrite decide_False by done.
Qed.

Lemma dd_append_keys {A} (g : list (string * list A)) k x :
  map fst (dd_append g k x) = if decide (k ∈ map fst g) then map fst g
                              else map fst g ++ [k].
Proof.
  induction g as [|[k' l] g IH]; cbn.
  - by rewrite decide_False by apply not_elem_of_nil.
  - destruct (decide (k' = k)) as [->|Hk]; cbn.
    + rewrite decide_True by apply list_elem_of_here. done.
    + rewrite IH. destruct (decide (k ∈ map fst g)) as [Hin|Hin].
      * rewrite decide_True by (by apply list_elem_of_further). done.
      * rewrite decide_False; [done|].
        intros [?|?]%elem_of_cons; congruence.
Qed.

Lemma dd_append_NoDup {A} (g : list (string * list A)) k x :
  NoDup (map fst g) -> NoDup (map fst (dd_append g k x)).
Proof.
  intros Hnd. rewrite dd_append_keys. case_decide; [done|].
  apply NoDup_app. split_and!; [done| |apply NoDup_singleton].
  intros y Hy ->%list_elem_of_singleton. done.
Qed.

Lemma dd_append_size {A} (g : list (string * list A)) k x :
  length (concat (map snd (dd_append g k x))) = S (length (concat (map snd g))).
Proof.
  induction g as [|[k' l] g IH]; cbn; [done|].
  destruct (decide (k' = k)); cbn.
  - rewrite !length_app. cbn. lia.
  - rewrite !length_app, IH. lia.
Qed.

Lemma dd_append_Forall {A} (P : A -> Prop) (g : list (string * list A)) k x :
  P x -> Forall (fun item => Forall P item.2) g ->
  Forall (fun item => Forall P item.2) (dd_append g k x).
Proof.
  intros Hx. induction 1 as [|[k' l] g Hl Hg IH]; cbn.
  - by repeat constructor.
  - destruct (decide (k' = k)).
    + constructor; [|done]. cbn in *. apply Forall_app. by repeat constructor.
    + by constructor.
Qed.

(** The loop over the rows makes no external call; when every row's
    parameters parse, it appends one closure per row. *)
Lemma group_rows_ok df ps g h :
  Forall2 (fun r p => params_of_row r = Ok p) df ps ->
  group_rows df g h =
    ([], Ok (fold_left (fun g rp => dd_append g (table_name rp.1) (translate rp))
               (zip df ps) g)).
Proof.
  intros Hps. revert g h. induction Hps as [|r p df ps Hp _ IH]; intros g h; [done|].
  cbn [group_rows]. erewrite bind_ok by (unfold lift; rewrite Hp; reflexivity).
  rewrite IH. reflexivity.
Qed.

Lemma group_rows_silent df g h : (group_rows df g h).1 = [].
Proof.
  revert g h. induction df as [|r df IH]; intros g h; [done|].
  cbn [group_rows]. unfold bind, lift.
  destruct (params_of_row r) as [p|e]; [|done].
  specialize (IH (dd_append g (table_name r) (translate (r, p))) (h ++ [])).
  unfold translate in IH. cbn [fst snd] in IH.
  destruct (group_rows df _ _) as [t' r']. cbn in *. by subst.
Qed.

Lemma group_rows_built df g h t g' :
  Forall (fun item => Forall built item.2) g ->
  group_rows df g h = (t, Ok g') ->
  Forall (fun item => Forall built item.2) g'.
Proof.
  revert g h t. induction df as [|r df IH]; intros g h t Hg.
  - by intros [= _ <-].
  - cbn [group_rows]. intros H. inv_seq H as t1 params Hp.
    eapply IH; [|exact H]. apply dd_append_Forall; [|done].
    by eexists _, _, _.
Qed.

Lemma group_rows_NoDup df g h t g' :
  NoDup (map fst g) -> group_rows df g h = (t, Ok g') -> NoDup (map fst g').
Proof.
  revert g h t. induction df as [|r df IH]; intros g h t Hg.
  - by intros [= _ <-].
  - cbn [group_rows]. intros H. inv_seq H as t1 params Hp.
    eapply IH; [|exact H]. by apply dd_append_NoDup.
Qed.

Lemma fold_dd_append_NoDup (rps : list (row * value)) g :
  NoDup (map fst g) ->
  NoDup (map fst (fold_left (fun g rp => dd_append g (table_name rp.1) (translate rp))
                    rps g)).
Proof.
  revert g. induction rps as [|rp rps IH]; intros g Hg; [done|].
  cbn. apply IH. by apply dd_append_NoDup.
Qed.

Lemma fold_dd_append_get (rps : list (row * value)) g t :
  dd_get (fold_left (fun g rp => dd_append g (table_name rp.1) (translate rp)) rps g) t
  = match dd_get g t, rules_for t rps with
    | Some old, new => Some (old ++ new)
    | None, [] => None
    | None, new => Some new
    end.
Proof.
  revert g. induction rps as [|rp rps IH]; intros g.
  - cbn. destruct (dd_get g t); [by rewrite app_nil_r|done].
  - cbn [fold_left]. rewrite IH, dd_get_append. unfold rules_for.
    rewrite filter_cons. destruct (decide (table_name rp.1 = t)) as [Ht|Ht].
    + cbn [map]. destruct (dd_get g t) as [old|]; cbn.
      * by rewrite <- app_assoc.
      * done.
    + destruct (dd_get g t); done.
Qed.

Lemma fold_dd_append_size (rps : list (row * value)) g :
  length (concat (map snd
    (fold_left (fun g rp => dd_append g (table_name rp.1) (translate rp)) rps g)))
  = length (concat (map snd g)) + length rps.
Proof.
  revert g. induction rps as [|rp rps IH]; intros g; cbn; [lia|].
  rewrite IH, dd_append_size. lia.
Qed.

(** ** The config loader *)

(** Every closure of a loaded configuration was made by the rule
    translator. *)
Lemma load_config_built h t config :
  load_config_from_snowflake h = (t, Ok config) ->
  Forall (fun item => Forall built item.2) config.
Proof.
  unfold load_config_from_snowflake. intros H.
  inv_seq H as t1 conn Hconn. inv_seq H as t2 df Hdf.
  eapply group_rows_built; [|exact H]. constructor.
Qed.

(** No table name is bound twice in a loaded configuration. *)
Lemma load_config_NoDup h t config :
  load_config_from_snowflake h = (t, Ok config) -> NoDup (map fst config).
Proof.
  unfold load_config_from_snowflake. intros H.
  inv_seq H as t1 conn Hconn. inv_seq H as t2 df Hdf.
  eapply group_rows_NoDup; [|exact H]. constructor.
Qed.

(** C2. When the configuration query raises an exception, the loader
    prints a warning, closes the connection and returns the
    configuration of the hardcoded frame: the single table TEST_DATES
    with exactly two rules, a not-null check on column ID and a between
    check on column EVENT_DATE.  The exception of the query is not
    propagated. *)
Theorem load_config_falls_back h conn e :
  let connected := Event connect_call (Ok conn) in
  let queried := Event (ReadSql query conn) (Raise e) in
  let warned := Event (Print (warning e)) (Ok tt) in
  let closed := Event (ConnClose conn) (Ok tt) in
  oracle _ h connect_call = Ok conn ->
  oracle _ (h ++ [connected]) (ReadSql query conn) = Raise e ->
  is_exception e = true ->
  oracle _ (h ++ [connected; queried]) (Print (warning e)) = Ok tt ->
  oracle _ (h ++ [connected; queried; warned]) (ConnClose conn) = Ok tt ->
  json_loads "{}" = Ok (VDict ∅) ->
  json_loads between_params_json = Ok (VDict between_params) ->
  load_config_from_snowflake h =
    ([connected; queried; warned; closed],
     Ok [("TEST_DATES",
          [build_expectation_function
             "expect_column_values_to_not_be_null" (VStr "ID") (VDict ∅);
           build_expectation_function
             "expect_column_values_to_be_between" (VStr "EVENT_DATE")
             (VDict between_params)])]).
Proof.
  intros connected queried warned closed Hconn Hread Hexc Hprint Hclose Hj1 Hj2.
  unfold load_config_from_snowflake.
  erewrite bind_ok by (rewrite perform_eq, Hconn; reflexivity).
  erewrite bind_ok with (t := [queried; warned; closed]) (a := fallback_df).
  - erewrite group_rows_ok with
      (ps := [VDict ∅; VDict between_params]).
    + reflexivity.
    + repeat constructor; unfold params_of_row; cbn; assumption.
  - unfold try_finally, try_except, bind.
    rewrite !perform_eq. fold connected. rewrite Hread, Hexc.
    rewrite <- !app_assoc. cbn [app]. fold queried.
    rewrite !perform_eq. rewrite Hprint. fold warned. cbn [app ret].
    rewrite <- !app_assoc. cbn [app]. rewrite perform_eq, Hclose. reflexivity.
Qed.

(** The statement of the loader selects the rows whose flag is TRUE. *)
Lemma query_selects_enabled stored :
  selected_by query stored
  = Some (map selected_columns (filter (fun r => is_enabled r = Some true) stored)).
Proof.
  unfold selected_by. rewrite decide_False by discriminate.
  rewrite decide_True by reflexivity. do 2 f_equal.
  apply list_filter_iff. intros r. unfold enabled.
  destruct (is_enabled r) as [[]|]; split; done.
Qed.

(** C3 (as the code has it). When the query succeeds, the connection is
    then closed without error and the parameters of every returned row
    parse, the loader has selected exactly the rows of the configuration
    table whose enabled flag is TRUE (the frame holds those rows and no
    other, in the order the warehouse returned them) and it returns a
    dictionary in which every table name is bound to the closures
    translated from exactly its own rows, in the order of the rows; a name
    without rows is not bound, no name is bound twice, and there are as
    many closures as rows. *)
Theorem load_config_groups_by_table h conn stored df ps :
  let connected := Event connect_call (Ok conn) in
  let queried := Event (ReadSql query conn) (Ok df) in
  let closed := Event (ConnClose conn) (Ok tt) in
  oracle _ h connect_call = Ok conn ->
  oracle _ (h ++ [connected]) (ReadSql query conn) = Ok df ->
  answers query stored df ->
  oracle _ (h ++ [connected; queried]) (ConnClose conn) = Ok tt ->
  Forall2 (fun r p => params_of_row r = Ok p) df ps ->
  df ≡ₚ map selected_columns (filter (fun r => is_enabled r = Some true) stored)
  /\ exists grouped,
       load_config_from_snowflake h = ([connected; queried; closed], Ok grouped)
       /\ NoDup (map fst grouped)
       /\ (forall t, dd_get grouped t =
                     match rules_for t (zip df ps) with
                     | [] => None
                     | rules => Some rules
                     end)
       /\ length (concat (map snd grouped)) = length df.
Proof.
  intros connected queried closed Hconn Hread (rows & Hrows & Hdf) Hclose Hps.
  split.
  { rewrite query_selects_enabled in Hrows. by injection Hrows as <-. }
  eexists. split.
  - unfold load_config_from_snowflake.
    erewrite bind_ok by (rewrite perform_eq, Hconn; reflexivity).
    erewrite bind_ok with (t := [queried; closed]) (a := df).
    + erewrite group_rows_ok by eassumption. reflexivity.
    + unfold try_finally, try_except.
      rewrite !perform_eq. fold connected. rewrite Hread.
      rewrite <- !app_assoc. cbn [app]. rewrite perform_eq. fold queried.
      rewrite Hclose. reflexivity.
  - cbn [fst snd]. split; [|split].
    + apply fold_dd_append_NoDup. constructor.
    + intros t. rewrite fold_dd_append_get. cbn [dd_get].
      by destruct (rules_for t (zip df ps)).
    + rewrite fold_dd_append_size. cbn.
      rewrite length_zip_with. apply Forall2_length in Hps. lia.
Qed.

(** C10. When opening the connection raises, the loader raises the same
    exception at once: it issues no query, prints nothing and builds no
    fallback configuration. *)
Theorem connect_failure_propagates h e :
  oracle _ h connect_call = Raise e ->
  load_config_from_snowflake h = ([Event connect_call (Raise e)], Raise e).
Proof.
  intros Hconn. unfold load_config_from_snowflake.
  apply bind_raise. by rewrite perform_eq, Hconn.
Qed.

(** ** The orchestrator: what a completed run looks like *)

Lemma ensure_suite_inv context suite h t u :
  try_except (perform (GetExpectationSuite context suite))
             (fun _ => perform (AddExpectationSuite context suite)) h = (t, Ok u) ->
  suite_ensured context suite t.
Proof.
  unfold try_except. rewrite perform_eq.
  destruct (oracle _ h (GetExpectationSuite context suite)) as [[]|e] eqn:Hget.
  - intros [= <-]. by left.
  - destruct (is_exception e) eqn:He; [|discriminate].
    rewrite perform_eq.
    destruct (oracle _ _ (AddExpectationSuite context suite)) as [[]|e'];
      [|discriminate].
    intros [= <-]. right. by exists e.
Qed.

Lemma for_each_rules_inv (fs : list closure) validator h t u :
  for_each fs (fun func => func validator) h = (t, Ok u) ->
  rules_applied validator h fs t.
Proof.
  revert h t. induction fs as [|f fs IH]; intros h t.
  - intros [= <-]. constructor.
  - cbn [for_each]. intros H. inv_seq H as t1 a Hf. destruct a.
    econstructor; [eassumption|]. by apply IH.
Qed.

Lemma monitor_table_inv context datasource datasource_name schema_name item h t u :
  monitor_table context datasource datasource_name schema_name item h = (t, Ok u) ->
  table_pass context datasource datasource_name schema_name h item t.
Proof.
  destruct item as [table fns]. unfold monitor_table.
  destruct schema_name as [schema|]; [|discriminate].
  intros H. inv_call H as asset Hasset.
  inv_seq H as ensured u1 Hens. apply ensure_suite_inv in Hens.
  unfold validate_table in H.
  inv_call H as validator Hval.
  inv_seq H as applied u2 Happ. apply for_each_rules_inv in Happ.
  inv_call H as u3 Hsave. inv_call H as checkpoint Hcp.
  inv_call H as checkpoint_result Hrun. inv_call H as result Hres.
  inv_call H as u4 Hbuild. inv_call H as u5 Hopen.
  apply perform_inv_ok in H as [Hprint ->].
  destruct u1, u2, u3, u4, u5, u.
  exists schema, asset, ensured, validator, applied, checkpoint,
    checkpoint_result, result. cbn [fst snd].
  split; [done|]. split; [done|]. split.
  - rewrite <- ?app_assoc in Happ. exact Happ.
  - rewrite <- ?app_assoc. unfold verdict. by destruct (success result).
Qed.

Lemma for_each_tables_inv context datasource datasource_name schema_name items h t u :
  for_each items (monitor_table context datasource datasource_name schema_name) h
    = (t, Ok u) ->
  all_passes context datasource datasource_name schema_name h items t.
Proof.
  revert h t. induction items as [|item items IH]; intros h t.
  - intros [= <-]. constructor.
  - cbn [for_each]. intros H. inv_seq H as t1 u1 Hpass.
    econstructor; [by eapply monitor_table_inv|]. by apply IH.
Qed.

(** A run that returns normally: the context, the loaded configuration,
    the datasource, then one completed pass per table. *)
Lemma monitor_all_tables_inv h tr u :
  monitor_all_tables h = (tr, Ok u) ->
  exists context loaded config datasource passes,
    let setup :=
      Event GetContext (Ok context) :: loaded ++
      [ Event (AddOrUpdateSnowflake context "snowflake_ds" connection_string) (Ok tt);
        Event (GetDatasource context "snowflake_ds") (Ok datasource) ] in
    load_config_from_snowflake (h ++ [Event GetContext (Ok context)])
      = (loaded, Ok config)
    /\ all_passes context datasource "snowflake_ds" (getenv "SNOWFLAKE_SCHEMA")
         (h ++ setup) config passes
    /\ tr = setup ++ passes.
Proof.
  unfold monitor_all_tables. intros H.
  inv_call H as context Hctx. inv_seq H as loaded config Hload.
  inv_call H as u1 Hadd. inv_call H as datasource Hds. destruct u1.
  apply for_each_tables_inv in H.
  exists context, loaded, config, datasource. eexists. cbn zeta.
  split; [done|]. split.
  - rewrite <- ?app_assoc in H. cbn [app] in H. rewrite <- ?app_assoc in H. exact H.
  - cbn [app]. rewrite <- ?app_assoc. reflexivity.
Qed.

(** C4. In a run that returns normally, the trace after the set-up is one
    completed pass per table of the loaded configuration, in the order of
    the configuration, and each pass is, in this order: add the table
    asset; fetch the table's suite (creating it when the fetch raises);
    get a validator for the asset and the suite; apply every translated
    rule of the table to that validator; save the suite; add or update
    the checkpoint and run it; validate; build and open the data docs;
    print "passed" or "failed" after the [success] flag of the result
    of that validation. *)
Theorem every_table_gets_the_steps_in_order h :
  (monitor_all_tables h).2 = Ok tt ->
  exists context loaded config datasource passes,
    let setup :=
      Event GetContext (Ok context) :: loaded ++
      [ Event (AddOrUpdateSnowflake context "snowflake_ds" connection_string) (Ok tt);
        Event (GetDatasource context "snowflake_ds") (Ok datasource) ] in
    load_config_from_snowflake (h ++ [Event GetContext (Ok context)])
      = (loaded, Ok config)
    /\ all_passes context datasource "snowflake_ds" (getenv "SNOWFLAKE_SCHEMA")
         (h ++ setup) config passes
    /\ (monitor_all_tables h).1 = setup ++ passes.
Proof.
  intros Hok. apply (monitor_all_tables_inv h _ tt).
  destruct (monitor_all_tables h) as [tr r]. cbn in Hok. by subst r.
Qed.

(** C5. In the pass over a table, when fetching the suite raises an
    exception, the orchestrator creates a suite of the same name and goes
    on with the rest of the pass, which starts by getting the validator:
    what the pass does and returns from there on is what the rest of the
    loop body does and returns. *)
Theorem missing_suite_is_created
    context datasource datasource_name schema table fns h asset e :
  let suite := suite_name_of table in
  let asset_name := asset_name_of schema table in
  let added := Event (AddTableAsset datasource asset_name table schema) (Ok asset) in
  let missing := Event (GetExpectationSuite context suite) (Raise e) in
  let created := Event (AddExpectationSuite context suite) (Ok tt) in
  let rest := validate_table context datasource_name asset_name suite table fns
                (h ++ [added; missing; created]) in
  oracle _ h (AddTableAsset datasource asset_name table schema) = Ok asset ->
  oracle _ (h ++ [added]) (GetExpectationSuite context suite) = Raise e ->
  is_exception e = true ->
  oracle _ (h ++ [added; missing]) (AddExpectationSuite context suite) = Ok tt ->
  monitor_table context datasource datasource_name (Some schema) (table, fns) h
    = (added :: missing :: created :: rest.1, rest.2)
  /\ exists o t,
       rest.1 = Event (GetValidator context datasource_name asset_name suite) o :: t.
Proof.
  intros suite asset_name added missing created rest Hasset Hget He Hadd.
  split.
  - unfold monitor_table. fold suite asset_name.
    erewrite bind_ok by (rewrite perform_eq, Hasset; reflexivity).
    fold added. erewrite bind_ok with (t := [missing; created]) (a := tt).
    + rewrite <- ?app_assoc. reflexivity.
    + erewrite try_except_caught; [|rewrite perform_eq, Hget; reflexivity|done].
      fold missing. rewrite <- ?app_assoc. cbn [app].
      rewrite perform_eq, Hadd. reflexivity.
  - subst rest. unfold validate_table, bind at 1. rewrite perform_eq.
    destruct (oracle _ _ (GetValidator _ _ _ _)) as [validator|e'].
    + destruct (bind _ _ _) as [t r]. by eexists _, _.
    + by eexists _, _.
Qed.

(** ** The run goes through the script once *)

Lemma chain_app {A} (R : A -> A -> Prop) l1 l2 :
  chain R l1 -> chain R l2 ->
  (forall x y, last l1 = Some x -> head l2 = Some y -> R x y) ->
  chain R (l1 ++ l2).
Proof.
  intros H1 H2 Hmid. induction l1 as [|x l1 IH]; [done|].
  cbn [app chain]. destruct H1 as [Hx H1]. split.
  - destruct l1 as [|y l1]; cbn [app].
    + destruct l2 as [|y l2]; [done|]. by apply Hmid.
    + done.
  - apply IH; [done|]. intros x' y Hl Hh. apply Hmid; [|done].
    destruct l1; [done|]. by rewrite last_cons_cons.
Qed.

Lemma chain_middle {A} (R : A -> A -> Prop) before x y after :
  chain R (before ++ x :: y :: after) -> R x y.
Proof.
  induction before as [|z before IH]; cbn [app chain].
  - by intros [? _].
  - intros [_ H]. by apply IH.
Qed.

Lemma recovery_irrefl o : o ∉ recovery o.
Proof.
  destruct o; cbn [recovery]; intros H;
    repeat (apply elem_of_cons in H as [H|H]; [discriminate|]);
    by apply elem_of_nil in H.
Qed.

Lemma ends_well_app t1 t2 : ends_well t1 -> ends_well t2 -> ends_well (t1 ++ t2).
Proof.
  unfold ends_well. intros H1 H2. rewrite last_app.
  destruct (last t2); done.
Qed.

(** After a call that returned, a later step may follow. *)
Lemma follows_later e1 e2 :
  failed e1 = false -> step_of e1 < step_of e2 -> follows e1 e2.
Proof. intros Hf Hlt. left. split; [done|]. congruence. Qed.

Lemma tidy_silent {A} (m : M A) lo hi : (forall h, (m h).1 = []) -> tidy lo hi m.
Proof. intros Hm h. rewrite Hm. split_and!; [done|constructor|done]. Qed.

Lemma tidy_perform {T} (c : call T) :
  tidy (step_of_call c) (step_of_call c) (perform c).
Proof.
  intros h. rewrite perform_eq. cbn [fst snd]. split_and!.
  - by split.
  - by repeat constructor.
  - intros Hok. unfold ends_well. cbn. by rewrite Hok.
Qed.

(** A computation of the steps up to [mid] followed by one of the steps
    after [mid]. *)
Lemma tidy_bind {A B} (m : M A) (k : A -> M B) lo mid hi :
  tidy lo mid m ->
  (forall h t a, m h = (t, Ok a) -> tidy (S mid) hi (k a)) ->
  lo <= S mid -> mid <= hi ->
  tidy lo hi (bind m k).
Proof.
  intros Hm Hk Hlo Hhi h. unfold bind. specialize (Hm h).
  destruct (m h) as [t [a|e]] eqn:Hmh; cbn [fst snd] in *.
  - destruct Hm as (Hlin & Hwi & Hew). specialize (Hew eq_refl).
    specialize (Hk h t a Hmh (h ++ t)).
    destruct (k a (h ++ t)) as [t' r]. cbn [fst snd] in *.
    destruct Hk as (Hlin' & Hwi' & Hew'). split_and!.
    + apply chain_app; [done..|]. intros x y Hx Hy.
      apply follows_later.
      * unfold ends_well in Hew. by rewrite Hx in Hew.
      * apply last_Some_elem_of in Hx. apply head_Some_elem_of in Hy.
        unfold within in *. rewrite Forall_forall in Hwi, Hwi'.
        specialize (Hwi _ Hx). specialize (Hwi' _ Hy). lia.
    + apply Forall_app. split.
      * eapply Forall_impl; [exact Hwi|]. intros e He. cbn in He. lia.
      * eapply Forall_impl; [exact Hwi'|]. intros e He. cbn in He. lia.
    + intros Hok. apply ends_well_app; auto.
  - destruct Hm as (Hlin & Hwi & _). split_and!; [done| |discriminate].
    eapply Forall_impl; [exact Hwi|]. intros e' He. cbn in He. lia.
Qed.

(** A loop whose body, when it returns, ends on a call after which the
    next iteration may start. *)
Lemma tidy_for_each {A} (xs : list A) (body : A -> M unit) lo hi
    (starts ends : event -> Prop) :
  (forall e1 e2, ends e1 -> starts e2 -> failed e1 = false -> follows e1 e2) ->
  Forall (fun x =>
            tidy lo hi (body x)
            /\ (forall h e, head (body x h).1 = Some e -> starts e)
            /\ (forall h, is_ok (body x h).2 = true ->
                          exists e, last (body x h).1 = Some e /\ ends e)) xs ->
  tidy lo hi (for_each xs body)
  /\ (forall h e, head (for_each xs body h).1 = Some e -> starts e).
Proof.
  intros Hnext. induction 1 as [|x xs (Ht & Hs & He) _ [IHt IHs]].
  - split; [by apply tidy_silent|done].
  - split.
    + intros h. cbn [for_each]. unfold bind.
      specialize (Ht h). specialize (He h).
      destruct (body x h) as [t [[]|e]] eqn:Hb; cbn [fst snd] in *.
      * destruct He as (e & Hl & Hends); [done|].
        destruct Ht as (Hlin & Hwi & Hew). specialize (Hew eq_refl).
        specialize (IHt (h ++ t)). specialize (IHs (h ++ t)).
        destruct (for_each xs body (h ++ t)) as [t' r']. cbn [fst snd] in *.
        destruct IHt as (Hlin' & Hwi' & Hew'). split_and!.
        -- apply chain_app; [done..|]. intros x0 y Hx Hy.
           rewrite Hl in Hx. injection Hx as <-.
           apply Hnext; [done|by apply IHs|].
           unfold ends_well in Hew. by rewrite Hl in Hew.
        -- by apply Forall_app.
        -- intros Hok. apply ends_well_app; auto.
      * destruct Ht as (Hlin & Hwi & _). by split_and!.
    + intros h e. cbn [for_each]. unfold bind.
      specialize (Hs h). specialize (He h).
      destruct (body x h) as [t [[]|e']] eqn:Hb; cbn [fst snd] in *.
      * destruct He as (e0 & Hl & _); [done|].
        destruct (for_each xs body (h ++ t)) as [t' r']. cbn [fst].
        destruct t as [|e1 t]; [done|]. cbn. apply Hs.
      * apply Hs.
Qed.

Lemma full_params_of_silent params h : (full_params_of params h).1 = [].
Proof.
  unfold full_params_of. destruct (is_truthy params); [destruct params|]; done.
Qed.

Lemma tidy_built f validator : built f -> tidy 11 12 (f validator).
Proof.
  intros (ty & col & params & ->). unfold build_expectation_function.
  apply (tidy_bind _ _ 11 11 12); [apply tidy_perform| |lia..]. intros _ _ m _.
  apply (tidy_bind _ _ 12 11 12);
    [apply tidy_silent, full_params_of_silent| |lia..]. intros _ _ fp _.
  destruct (fp !! "column_list"); [apply tidy_perform|].
  destruct (is_truthy _); apply tidy_perform.
Qed.

(** The loop over the rules of a table. *)
Lemma tidy_rules fs validator :
  Forall built fs -> tidy 11 12 (for_each fs (fun func => func validator)).
Proof.
  intros Hfs.
  apply (tidy_for_each fs (fun func => func validator) 11 12
           (fun e => op_of e = OpGetAttr) (fun e => op_of e = OpCallMethod)).
  - intros e1 e2 H1 H2 Hf. right. split; [done|]. by left.
  - eapply Forall_impl; [exact Hfs|]. intros f Hf. split_and!.
    + by apply tidy_built.
    + intros h e. by apply built_head.
    + intros h Hok. destruct (f validator h) as [t [[]|e]] eqn:Hrun; [|done].
      destruct (built_inv_ok _ _ _ _ _ Hf Hrun) as (ty & m & args & kwargs & ->).
      eexists. split; [reflexivity|done].
Qed.

(** Compare the steps of two calls. *)
Ltac steps := unfold step_of, step_of_call, warning, verdict; simpl; lia.

(** The [try]/[except]/[finally] of the loader, case by case. *)
Lemma tidy_read_config conn :
  tidy 2 4 (try_finally
              (try_except (perform (ReadSql query conn))
                 (fun e => perform (Print (warning e)) ;; ret fallback_df))
              (perform (ConnClose conn))).
Proof.
  intros h. unfold try_finally, try_except, bind. rewrite !perform_eq.
  destruct (oracle _ h (ReadSql query conn)) as [df|e] eqn:Hread.
  - rewrite perform_eq. destruct (oracle _ _ (ConnClose conn)) as [[]|e'];
      (split_and!;
       [ split; [by apply follows_later; steps|by split]
       | repeat constructor; steps
       | by intros ]).
  - destruct (is_exception e).
    + rewrite perform_eq.
      destruct (oracle _ _ (Print (warning e))) as [[]|e1]; cbn [ret];
        rewrite perform_eq;
        destruct (oracle _ _ (ConnClose conn)) as [[]|e2];
        (split_and!;
         [ split; [left; split; [steps|intros _; repeat constructor]|];
           split; [left; split; [steps|intros _; repeat constructor]|by split]
         | repeat constructor; steps
         | by intros ]).
    + rewrite perform_eq. destruct (oracle _ _ (ConnClose conn)) as [[]|e2];
        (split_and!;
         [ split; [left; split; [steps|intros _; repeat constructor]|by split]
         | repeat constructor; steps
         | by intros ]).
Qed.

Lemma tidy_load_config : tidy 1 4 load_config_from_snowflake.
Proof.
  unfold load_config_from_snowflake.
  apply (tidy_bind _ _ 1 1 4); [apply tidy_perform| |lia..]. intros _ _ conn _.
  apply (tidy_bind _ _ 2 4 4); [apply tidy_read_config| |lia..]. intros _ _ df _.
  apply tidy_silent. intros h. apply group_rows_silent.
Qed.

Lemma tidy_ensure_suite context suite :
  tidy 8 9 (try_except (perform (GetExpectationSuite context suite))
                       (fun _ => perform (AddExpectationSuite context suite))).
Proof.
  intros h. unfold try_except. rewrite perform_eq.
  destruct (oracle _ h (GetExpectationSuite context suite)) as [[]|e].
  - split_and!; [by split|repeat constructor; steps|by intros].
  - destruct (is_exception e).
    + rewrite perform_eq.
      destruct (oracle _ _ (AddExpectationSuite context suite)) as [[]|e'];
        (split_and!;
         [ split; [left; split; [steps|intros _; repeat constructor]|by split]
         | repeat constructor; steps
         | by intros ]).
    + split_and!; [by split|repeat constructor; steps|by intros].
Qed.

Lemma step_of_verdict result table : step_of_call (Print (verdict result table)) = 19.
Proof. unfold verdict. destruct (success result); reflexivity. Qed.

Lemma tidy_monitor_table context datasource datasource_name schema_name item :
  Forall built item.2 ->
  tidy 7 19 (monitor_table context datasource datasource_name schema_name item).
Proof.
  destruct item as [table fns]. cbn [snd]. intros Hfns. unfold monitor_table.
  destruct schema_name as [schema|]; [|by apply tidy_silent].
  apply (tidy_bind _ _ 7 7 19); [apply tidy_perform| |lia..]. intros _ _ asset _.
  apply (tidy_bind _ _ 8 9 19); [apply tidy_ensure_suite| |lia..]. intros _ _ _ _.
  unfold validate_table.
  apply (tidy_bind _ _ 10 10 19); [apply tidy_perform| |lia..].
  intros _ _ validator _.
  apply (tidy_bind _ _ 11 12 19); [by apply tidy_rules| |lia..]. intros _ _ _ _.
  apply (tidy_bind _ _ 13 13 19); [apply tidy_perform| |lia..]. intros _ _ _ _.
  apply (tidy_bind _ _ 14 14 19); [apply tidy_perform| |lia..].
  intros _ _ checkpoint _.
  apply (tidy_bind _ _ 15 15 19); [apply tidy_perform| |lia..]. intros _ _ _ _.
  apply (tidy_bind _ _ 16 16 19); [apply tidy_perform| |lia..]. intros _ _ result _.
  apply (tidy_bind _ _ 17 17 19); [apply tidy_perform| |lia..]. intros _ _ _ _.
  apply (tidy_bind _ _ 18 18 19); [apply tidy_perform| |lia..]. intros _ _ _ _.
  rewrite <- (step_of_verdict result table). apply tidy_perform.
Qed.

(** A pass starts by adding the asset, and one that returns ends on the
    verdict. *)
Lemma monitor_table_head context datasource datasource_name schema_name item h e :
  head (monitor_table context datasource datasource_name schema_name item h).1 = Some e ->
  op_of e = OpAddAsset.
Proof.
  destruct item as [table fns]. unfold monitor_table.
  destruct schema_name as [schema|]; [|done].
  unfold bind at 1. rewrite perform_eq.
  destruct (oracle _ h (AddTableAsset _ _ _ _)) as [asset|e'].
  - destruct (bind _ _ _) as [t r]. by intros [= <-].
  - by intros [= <-].
Qed.

Lemma table_pass_last context datasource datasource_name schema_name h item tr :
  table_pass context datasource datasource_name schema_name h item tr ->
  exists e, last tr = Some e /\ step_of e = 19.
Proof.
  intros (schema & asset & ensured & validator & applied & cp & cpr & res
          & _ & _ & _ & ->).
  eexists. split.
  - rewrite last_cons, last_app, last_cons, last_app. cbn. reflexivity.
  - cbn. by destruct (success res).
Qed.

Lemma tidy_monitor_all_tables : tidy 0 19 monitor_all_tables.
Proof.
  unfold monitor_all_tables.
  apply (tidy_bind _ _ 0 0 19); [apply tidy_perform| |lia..]. intros _ _ context _.
  apply (tidy_bind _ _ 1 4 19); [apply tidy_load_config| |lia..].
  intros h t config Hload.
  apply (tidy_bind _ _ 5 5 19); [apply tidy_perform| |lia..]. intros _ _ _ _.
  apply (tidy_bind _ _ 6 6 19); [apply tidy_perform| |lia..].
  intros _ _ datasource _.
  apply load_config_built in Hload.
  apply (tidy_for_each config _ 7 19
           (fun e => op_of e = OpAddAsset) (fun e => step_of e = 19)).
  - intros e1 e2 H1 H2 Hf. right. split; [done|]. by right.
  - eapply Forall_impl; [exact Hload|]. intros item Hitem. split_and!.
    + by apply tidy_monitor_table.
    + intros h' e. apply monitor_table_head.
    + intros h' Hok.
      destruct (monitor_table _ _ _ _ item h') as [t' [[]|e]] eqn:Hrun; [|done].
      apply monitor_table_inv in Hrun. by eapply table_pass_last.
Qed.

(** ** Counting the calls of a completed run *)

Lemma count_op_app o t1 t2 : count_op o (t1 ++ t2) = count_op o t1 + count_op o t2.
Proof. unfold count_op. by rewrite filter_app, length_app. Qed.

Lemma count_op_cons o e t :
  count_op o (e :: t) = (if decide (op_of e = o) then 1 else 0) + count_op o t.
Proof. unfold count_op. rewrite filter_cons. by case_decide. Qed.

Lemma tables_monitored_app t1 t2 :
  tables_monitored (t1 ++ t2) = tables_monitored t1 ++ tables_monitored t2.
Proof. apply omap_app. Qed.

Lemma tables_monitored_cons e t :
  tables_monitored (e :: t) = tables_monitored [e] ++ tables_monitored t.
Proof. apply (tables_monitored_app [e] t). Qed.

Ltac count_ops :=
  repeat (rewrite count_op_app || rewrite count_op_cons); cbn [op_of op_of_call];
  rewrite ?decide_True, ?decide_False by done.

(** An operation that is none of [ops]. *)
Ltac not_among :=
  let H := fresh in
  intros H; repeat (apply elem_of_cons in H as [H|H]; [discriminate|]);
  by apply elem_of_nil in H.

Lemma count_op_absent (ops : list op) o t :
  Forall (fun e => op_of e ∈ ops) t -> o ∉ ops -> count_op o t = 0.
Proof.
  intros Ht Ho. induction Ht as [|e t He _ IH]; [done|].
  rewrite count_op_cons, IH. rewrite decide_False; [done|].
  intros <-. done.
Qed.

Lemma tables_monitored_absent (ops : list op) t :
  Forall (fun e => op_of e ∈ ops) t -> OpAddAsset ∉ ops -> tables_monitored t = [].
Proof.
  intros Ht Ho. induction Ht as [|e t He _ IH]; [done|].
  rewrite tables_monitored_cons, IH.
  destruct e as [T c o]. destruct c; done.
Qed.

Lemma rules_applied_count validator h fs t :
  Forall built fs -> rules_applied validator h fs t ->
  count_op OpGetAttr t = length fs
  /\ count_op OpCallMethod t = length fs
  /\ (forall o, o ≠ OpGetAttr -> o ≠ OpCallMethod -> count_op o t = 0)
  /\ tables_monitored t = []
  /\ Forall (fun e => suites_named e = []
                      /\ forall v, v ∈ validators_used e -> v = validator) t.
Proof.
  intros Hfs Happ. induction Happ as [|h f fs t ts Hf Happ IH]; [by repeat split|].
  apply Forall_cons in Hfs as [Hb Hfs]. specialize (IH Hfs).
  destruct IH as (IH1 & IH2 & IH3 & IH4 & IH5).
  destruct (built_inv_ok _ _ _ _ _ Hb Hf) as (ty & m & args & kwargs & ->).
  cbn [app length]. rewrite !count_op_cons. cbn [op_of op_of_call].
  split_and!.
  - rewrite decide_True, decide_False by done. lia.
  - rewrite decide_False, decide_True by done. lia.
  - intros o Ho1 Ho2. rewrite !count_op_cons. cbn [op_of op_of_call].
    rewrite !decide_False by done. by apply IH3.
  - done.
  - repeat constructor; cbn; try done.
    + by intros v ->%list_elem_of_singleton.
    + intros v Hv. by apply not_elem_of_nil in Hv.
Qed.

Lemma suite_ensured_count context suite t :
  suite_ensured context suite t ->
  tables_monitored t = []
  /\ (forall o, o ≠ OpGetSuite -> o ≠ OpAddSuite -> count_op o t = 0)
  /\ Forall (fun e => suites_named e = [suite] /\ validators_used e = []) t.
Proof.
  intros [->|(e & _ & ->)].
  - split_and!; [done| |by repeat constructor].
    intros o H1 H2. count_ops. done.
  - split_and!; [done| |by repeat constructor].
    intros o H1 H2. count_ops. done.
Qed.

Lemma table_pass_count context datasource datasource_name schema_name h item tr :
  Forall built item.2 ->
  table_pass context datasource datasource_name schema_name h item tr ->
  tables_monitored tr = [item.1]
  /\ count_op OpGetValidator tr = 1
  /\ count_op OpRunCheckpoint tr = 1
  /\ count_op OpValidate tr = 1
  /\ count_op OpCallMethod tr = length item.2.
Proof.
  intros Hb (schema & asset & ensured & validator & applied & cp & cpr & res
             & _ & Hens & Happ & ->).
  apply suite_ensured_count in Hens as (Hens1 & Hens2 & _).
  apply rules_applied_count in Happ as (_ & Hcall & Happ & Happ1 & _); [|done].
  split_and!.
  - rewrite (tables_monitored_cons _ (_ ++ _)), tables_monitored_app.
    rewrite (tables_monitored_cons _ (_ ++ _)), tables_monitored_app.
    rewrite Hens1, Happ1. reflexivity.
  - count_ops. rewrite Hens2, Happ by done. count_ops. done.
  - count_ops. rewrite Hens2, Happ by done. count_ops. done.
  - count_ops. rewrite Hens2, Happ by done. count_ops. done.
  - count_ops. rewrite Hens2, Hcall by done. count_ops. cbn. lia.
Qed.

Lemma all_passes_count context datasource datasource_name schema_name h config tr :
  Forall (fun item => Forall built item.2) config ->
  all_passes context datasource datasource_name schema_name h config tr ->
  tables_monitored tr = map fst config
  /\ count_op OpGetValidator tr = length config
  /\ count_op OpRunCheckpoint tr = length config
  /\ count_op OpValidate tr = length config
  /\ count_op OpCallMethod tr = length (concat (map snd config)).
Proof.
  intros Hb Hall. induction Hall as [|h item items tr rest Hpass Hall IH];
    [by repeat split|].
  apply Forall_cons in Hb as [Hitem Hb]. specialize (IH Hb).
  destruct IH as (IH1 & IH2 & IH3 & IH4 & IH5).
  destruct (table_pass_count _ _ _ _ _ _ _ Hitem Hpass) as (P1 & P2 & P3 & P4 & P5).
  rewrite tables_monitored_app, !count_op_app. cbn [map concat length].
  rewrite length_app, P1, P2, P3, P4, P5, IH1, IH2, IH3, IH4, IH5. done.
Qed.

(** The loader only talks to the warehouse and the console. *)
Lemma load_config_ops h :
  Forall (fun e => op_of e ∈ [OpConnect; OpReadSql; OpPrint; OpClose])
    (load_config_from_snowflake h).1.
Proof.
  unfold load_config_from_snowflake, bind at 1. rewrite perform_eq.
  destruct (oracle _ h connect_call) as [conn|e]; [|repeat constructor].
  unfold bind at 1.
  assert (Hread : forall h',
    Forall (fun e => op_of e ∈ [OpConnect; OpReadSql; OpPrint; OpClose])
      (try_finally
         (try_except (perform (ReadSql query conn))
            (fun e => perform (Print (warning e)) ;; ret fallback_df))
         (perform (ConnClose conn)) h').1).
  { intros h'. unfold try_finally, try_except, bind. rewrite !perform_eq.
    destruct (oracle _ h' (ReadSql query conn)) as [df|e].
    - rewrite perform_eq. cbn. repeat constructor.
    - destruct (is_exception e).
      + rewrite perform_eq.
        destruct (oracle _ _ (Print (warning e))) as [[]|e1]; cbn [ret];
          rewrite perform_eq; cbn; repeat constructor.
      + rewrite perform_eq. cbn. repeat constructor. }
  specialize (Hread (h ++ [Event connect_call (Ok conn)])).
  destruct (try_finally _ _ _) as [t [df|e]]; cbn [fst] in *.
  - pose proof (group_rows_silent df [] ((h ++ [Event connect_call (Ok conn)]) ++ t))
      as Hsilent.
    destruct (group_rows df [] _) as [t' r']. cbn [fst] in *. subst t'.
    rewrite app_nil_r. constructor; [apply list_elem_of_here|done].
  - constructor; [apply list_elem_of_here|done].
Qed.

(** C6. A run is one linear pass over the script.  Each call is followed
    by a call of a later step, except that after a check call that
    returned the lookup of the next rule may follow, and after a printed
    verdict the asset of the next table: the script never goes back to a
    step after a failure.  A failed call is followed, if at all, only by
    the [except] or [finally] code of the failed statement, never by the
    same operation again.  In a run that returns normally every table of
    the loaded configuration is processed once, in order and under
    distinct names; a validator is obtained, the checkpoint is run and
    [validate] is called once per table; and every translated rule calls
    its check once. *)
Theorem run_is_a_single_linear_pass h :
  let tr := (monitor_all_tables h).1 in
  linear tr
  /\ (forall before e1 e2 after,
        tr = before ++ e1 :: e2 :: after ->
        (failed e1 = true ->
         step_of e1 < step_of e2 /\ op_of e2 ∈ recovery (op_of e1)
         /\ op_of e2 ≠ op_of e1)
        /\ (step_of e2 <= step_of e1 ->
            failed e1 = false /\ next_iteration e1 e2))
  /\ ((monitor_all_tables h).2 = Ok tt ->
      exists context loaded config,
        load_config_from_snowflake (h ++ [Event GetContext (Ok context)])
          = (loaded, Ok config)
        /\ NoDup (map fst config)
        /\ tables_monitored tr = map fst config
        /\ count_op OpGetValidator tr = length config
        /\ count_op OpRunCheckpoint tr = length config
        /\ count_op OpValidate tr = length config
        /\ count_op OpCallMethod tr = length (concat (map snd config))).
Proof.
  intros tr. pose proof (tidy_monitor_all_tables h) as [Hlin _]. fold tr in Hlin.
  split; [done|]. split.
  - intros before e1 e2 after Htr. rewrite Htr in Hlin.
    apply chain_middle in Hlin. destruct Hlin as [[Hlt Hrec]|[Hok Hnext]].
    + split; [|lia]. intros Hf. specialize (Hrec Hf). split_and!; [done..|].
      intros Heq. rewrite Heq in Hrec. by apply recovery_irrefl in Hrec.
    + split; [congruence|done].
  - intros Hok.
    destruct (monitor_all_tables_inv h tr tt)
      as (context & loaded & config & datasource & passes & Hload & Hall & Htr).
    { subst tr. destruct (monitor_all_tables h) as [t r]. cbn in Hok. by subst r. }
    exists context, loaded, config. split; [done|].
    split; [by eapply load_config_NoDup|].
    pose proof (load_config_built _ _ _ Hload) as Hbuilt.
    destruct (all_passes_count _ _ _ _ _ _ _ Hbuilt Hall)
      as (P1 & P2 & P3 & P4 & P5).
    pose proof (load_config_ops (h ++ [Event GetContext (Ok context)])) as Hops.
    rewrite Hload in Hops. cbn [fst] in Hops.
    assert (Habs : forall o, o ∉ [OpConnect; OpReadSql; OpPrint; OpClose] ->
                             count_op o loaded = 0)
      by (intros o; by apply count_op_absent).
    rewrite Htr. split_and!.
    + rewrite tables_monitored_app, tables_monitored_cons, tables_monitored_app.
      rewrite (tables_monitored_absent _ _ Hops), P1; [done|not_among].
    + count_ops. rewrite Habs, P2; [done|not_among].
    + count_ops. rewrite Habs, P3; [done|not_among].
    + count_ops. rewrite Habs, P4; [done|not_among].
    + count_ops. rewrite Habs, P5; [done|not_among].
Qed.

(** ** Suites and tables *)

Lemma string_length_append (s1 s2 : string) :
  String.length (s1 +:+ s2) = String.length s1 + String.length s2.
Proof. induction s1 as [|c s1 IH]; simpl; [done|]. by rewrite IH. Qed.

Lemma string_append_inj_r (s1 s2 x : string) : s1 +:+ x = s2 +:+ x -> s1 = s2.
Proof.
  revert s2. induction s1 as [|c s1 IH]; intros [|c2 s2] H; [done| | |].
  - apply (f_equal String.length) in H.
    rewrite !string_length_append in H. simpl in H. lia.
  - apply (f_equal String.length) in H.
    rewrite !string_length_append in H. simpl in H. lia.
  - simpl in H. injection H as -> H. f_equal. by apply IH.
Qed.

Lemma suite_name_of_eq t1 t2 :
  suite_name_of t1 = suite_name_of t2 <-> str_lower t1 = str_lower t2.
Proof.
  unfold suite_name_of. split.
  - apply string_append_inj_r.
  - by intros ->.
Qed.

Lemma table_pass_uses_own_suite
    context datasource datasource_name schema_name h item tr :
  Forall built item.2 ->
  table_pass context datasource datasource_name schema_name h item tr ->
  uses_own_suite item tr.
Proof.
  intros Hb (schema & asset & ensured & validator & applied & cp & cpr & res
             & _ & Hens & Happ & ->).
  apply suite_ensured_count in Hens as (_ & _ & Hens).
  apply rules_applied_count in Happ as (_ & _ & _ & _ & Happ); [|done].
  split.
  - constructor; [by intros n ?%elem_of_nil|].
    apply Forall_app. split.
    { eapply Forall_impl; [exact Hens|]. intros e [-> _] n.
      by intros ->%list_elem_of_singleton. }
    constructor; [by intros n ->%list_elem_of_singleton|].
    apply Forall_app. split.
    { eapply Forall_impl; [exact Happ|]. intros e [-> _] n.
      by intros ?%elem_of_nil. }
    repeat constructor; by intros n ?%elem_of_nil.
  - constructor; [by intros v ?%elem_of_nil|].
    apply Forall_app. split.
    { eapply Forall_impl; [exact Hens|]. intros e [_ ->] v.
      by intros ?%elem_of_nil. }
    constructor; [by intros v ?%elem_of_nil|].
    apply Forall_app. split.
    { eapply Forall_impl; [exact Happ|]. intros e [_ Hv] v Hin.
      apply Hv in Hin as ->. eexists _, _, _.
      apply list_elem_of_further, elem_of_app. right.
      apply list_elem_of_here. }
    repeat constructor; by intros v ?%elem_of_nil.
Qed.

Lemma all_passes_split context datasource datasource_name schema_name h config tr :
  Forall (fun item => Forall built item.2) config ->
  all_passes context datasource datasource_name schema_name h config tr ->
  exists passes, tr = concat passes /\ Forall2 uses_own_suite config passes.
Proof.
  intros Hb Hall. induction Hall as [|h item items tr rest Hpass Hall IH].
  - exists []. by split.
  - apply Forall_cons in Hb as [Hitem Hb].
    destruct (IH Hb) as (passes & -> & Hpasses).
    exists (tr :: passes). split; [done|]. constructor; [|done].
    by eapply table_pass_uses_own_suite.
Qed.

(** *** Letter case of ASCII text *)

Lemma N_of_ascii_lower c :
  N_of_ascii (ascii_lower c)
  = if is_capital c then (N_of_ascii c + 32)%N else N_of_ascii c.
Proof.
  unfold ascii_lower. destruct (is_capital c) eqn:Hc; [|done].
  apply N_ascii_embedding. unfold is_capital in Hc.
  apply andb_true_iff in Hc as [_ Hc%N.leb_le]. lia.
Qed.

Lemma N_of_ascii_inj a b : N_of_ascii a = N_of_ascii b -> a = b.
Proof.
  intros H. rewrite <- (ascii_N_embedding a), <- (ascii_N_embedding b).
  by rewrite H.
Qed.

(** Two characters have the same lowercase form exactly when they are the
    same letter. *)
Lemma ascii_lower_eq a b : ascii_lower a = ascii_lower b <-> same_letter a b = true.
Proof.
  unfold same_letter. rewrite !orb_true_iff, !andb_true_iff, !N.eqb_eq.
  split.
  - intros H. apply (f_equal N_of_ascii) in H. rewrite !N_of_ascii_lower in H.
    destruct (is_capital a) eqn:Ha, (is_capital b) eqn:Hb; unfold is_capital in Ha, Hb.
    + left. left. lia.
    + left. right. split; [done|]. lia.
    + right. split; [done|]. lia.
    + left. left. done.
  - intros H. apply N_of_ascii_inj. rewrite !N_of_ascii_lower.
    destruct (is_capital a) eqn:Ha, (is_capital b) eqn:Hb; unfold is_capital in Ha, Hb;
      destruct H as [[H|[Hc H]]|[Hc H]]; try discriminate Hc;
      repeat match goal with
        | H : _ && _ = true |- _ => apply andb_true_iff in H as [? ?]
        | H : _ && _ = false |- _ => apply andb_false_iff in H as [?|?]
        | H : (_ <=? _)%N = true |- _ => apply N.leb_le in H
        | H : (_ <=? _)%N = false |- _ => apply N.leb_gt in H
        end; lia.
Qed.

(** Two texts have the same lowercase form exactly when they are equal up
    to the case of their letters. *)
Lemma lower_ascii_eq s1 s2 :
  lower_ascii s1 = lower_ascii s2 <-> same_up_to_case s1 s2 = true.
Proof.
  revert s2. induction s1 as [|a s1 IH]; intros [|b s2]; cbn; try done.
  rewrite andb_true_iff, <- IH, <- ascii_lower_eq. split.
  - by intros [= -> ->].
  - by intros [-> ->].
Qed.

(** C7 (as the code has it). The suite of a table is named after the
    table alone, by its lowercased name and a fixed suffix, so two tables
    get the same suite exactly when their names have the same lowercase
    form; for names made of ASCII characters, on which lowercasing maps
    A-Z to a-z, that is exactly when the names are equal up to the case
    of their letters.  In a run that returns normally, the pass of each
    table names no other suite than the table's, and every check of the
    pass is looked up on a validator obtained in that pass for that
    suite; the set-up before the passes names no suite. *)
Theorem suite_is_named_after_the_table h :
  (forall t1 t2, suite_name_of t1 = suite_name_of t2 <-> str_lower t1 = str_lower t2)
  /\ ((forall s, isascii s = true -> str_lower s = lower_ascii s) ->
      forall t1 t2, isascii t1 = true -> isascii t2 = true ->
        (suite_name_of t1 = suite_name_of t2 <-> same_up_to_case t1 t2 = true))
  /\ ((monitor_all_tables h).2 = Ok tt ->
      exists context loaded config setup passes,
        load_config_from_snowflake (h ++ [Event GetContext (Ok context)])
          = (loaded, Ok config)
        /\ (monitor_all_tables h).1 = setup ++ concat passes
        /\ Forall (fun e => suites_named e = [] /\ validators_used e = []) setup
        /\ Forall2 uses_own_suite config passes).
Proof.
  split; [apply suite_name_of_eq|]. split.
  { intros Hlower t1 t2 H1 H2.
    rewrite suite_name_of_eq, !Hlower by done. apply lower_ascii_eq. }
  intros Hok.
  destruct (monitor_all_tables_inv h (monitor_all_tables h).1 tt)
    as (context & loaded & config & datasource & tr & Hload & Hall & Htr).
  { destruct (monitor_all_tables h) as [t r]. cbn in Hok. by subst r. }
  pose proof (load_config_built _ _ _ Hload) as Hbuilt.
  destruct (all_passes_split _ _ _ _ _ _ _ Hbuilt Hall) as (passes & -> & Hpasses).
  eexists context, loaded, config, _, passes.
  split; [done|]. split; [exact Htr|]. split; [|done].
  pose proof (load_config_ops (h ++ [Event GetContext (Ok context)])) as Hops.
  rewrite Hload in Hops. cbn [fst] in Hops.
  constructor; [done|]. apply Forall_app. split; [|by repeat constructor].
  eapply Forall_impl; [exact Hops|]. intros [T c o] Hin. cbn in Hin.
  destruct c; try done; cbn in Hin;
    repeat (apply elem_of_cons in Hin as [Hin|Hin]; [discriminate|]);
    by apply elem_of_nil in Hin.
Qed.

(** ** Further properties of the rule translator *)

(** X1. Parameters that are false in Python ([null], [0], [false], an
    empty string, list or object) are treated as no parameters at all:
    the closure does what the closure of an empty dictionary does. *)
Theorem falsy_params_are_no_params ty col params v h :
  is_truthy params = false ->
  build_expectation_function ty col params v h
  = build_expectation_function ty col (VDict ∅) v h.
Proof.
  intros Hfalse. unfold build_expectation_function, bind.
  destruct (perform (GetAttr v ty) h) as [t [m|e]]; [|done].
  rewrite full_params_of_dict. unfold full_params_of. rewrite Hfalse.
  unfold ret. by rewrite insert_empty.
Qed.

(** X2. Parameters that are true in Python but are not an object (a
    non-empty list or string, a non-zero number, [true]) make the closure
    raise a [TypeError] right after the lookup of the check: the check is
    not called. *)
Theorem non_mapping_params_raise ty col params v h m :
  oracle _ h (GetAttr v ty) = Ok m ->
  is_truthy params = true ->
  (forall d, params ≠ VDict d) ->
  build_expectation_function ty col params v h
  = ([Event (GetAttr v ty) (Ok m)], Raise type_error_not_a_mapping).
Proof.
  intros Hm Htrue Hnot. unfold build_expectation_function.
  erewrite bind_ok by (rewrite perform_eq, Hm; reflexivity).
  erewrite bind_raise; [reflexivity|].
  unfold full_params_of. rewrite Htrue.
  destruct params; try reflexivity. by destruct (Hnot d).
Qed.

(** X3. When the validator has no attribute named by the expectation
    kind, the exception of the lookup is the outcome of the closure and
    nothing is called, whatever the column and the parameters are. *)
Theorem unknown_check_propagates ty col params v h e :
  oracle _ h (GetAttr v ty) = Raise e ->
  build_expectation_function ty col params v h
  = ([Event (GetAttr v ty) (Raise e)], Raise e).
Proof.
  intros Hm. unfold build_expectation_function.
  apply bind_raise. by rewrite perform_eq, Hm.
Qed.

(** ** Further properties of the config loader *)

(** What the [try]/[except]/[finally] of the loader does, for every
    outcome of the query, of the warning and of the close. *)
Lemma read_config_trace conn h :
  exists middle o,
    (try_finally
       (try_except (perform (ReadSql query conn))
          (fun e => perform (Print (warning e)) ;; ret fallback_df))
       (perform (ConnClose conn)) h).1 = middle ++ [Event (ConnClose conn) o]
    /\ Forall (fun e => op_of e ∈ [OpReadSql; OpPrint]) middle
    /\ length middle <= 2.
Proof.
  unfold try_finally, try_except, bind. rewrite !perform_eq.
  destruct (oracle _ h (ReadSql query conn)) as [df|e].
  - rewrite perform_eq. eexists [_], _. cbn. split; [reflexivity|].
    split; [repeat constructor|lia].
  - destruct (is_exception e).
    + rewrite perform_eq.
      destruct (oracle _ _ (Print (warning e))) as [[]|e1]; cbn [ret];
        rewrite perform_eq; eexists [_; _], _; cbn;
        (split; [reflexivity|]; split; [repeat constructor|lia]).
    + rewrite perform_eq. eexists [_], _. cbn. split; [reflexivity|].
      split; [repeat constructor|lia].
Qed.

(** X4. Once the connection is open it is closed exactly once, as the
    last call of the loader and on that same connection, whatever the
    query and the warning do. *)
Theorem connection_is_always_closed h conn :
  oracle _ h connect_call = Ok conn ->
  exists middle o,
    (load_config_from_snowflake h).1
      = Event connect_call (Ok conn) :: middle ++ [Event (ConnClose conn) o]
    /\ count_op OpClose middle = 0
    /\ count_op OpConnect middle = 0.
Proof.
  intros Hconn. unfold load_config_from_snowflake, bind at 1.
  rewrite perform_eq, Hconn. unfold bind at 1.
  destruct (read_config_trace conn (h ++ [Event connect_call (Ok conn)]))
    as (middle & o & Htr & Hops & _).
  destruct (try_finally _ _ _) as [t [df|e]]; cbn [fst] in Htr; subst t.
  - pose proof (group_rows_silent df []
                  ((h ++ [Event connect_call (Ok conn)]) ++
                   middle ++ [Event (ConnClose conn) o])) as Hsilent.
    destruct (group_rows df [] _) as [t' r']. cbn [fst] in *. subst t'.
    exists middle, o. rewrite app_nil_r. split; [done|].
    split; apply (count_op_absent [OpReadSql; OpPrint]); try done; not_among.
  - exists middle, o. split; [done|].
    split; apply (count_op_absent [OpReadSql; OpPrint]); try done; not_among.
Qed.

(** The shape of every trace of the loader. *)
Lemma load_config_trace h :
  (exists e, (load_config_from_snowflake h).1 = [Event connect_call (Raise e)])
  \/ (exists conn middle o,
        (load_config_from_snowflake h).1
          = Event connect_call (Ok conn) :: middle ++ [Event (ConnClose conn) o]
        /\ Forall (fun e => op_of e ∈ [OpReadSql; OpPrint]) middle
        /\ length middle <= 2).
Proof.
  destruct (oracle _ h connect_call) as [conn|e] eqn:Hconn.
  - right.
    destruct (read_config_trace conn (h ++ [Event connect_call (Ok conn)]))
      as (middle & o & Htr & Hops & Hlen).
    exists conn, middle, o. split; [|by split].
    unfold load_config_from_snowflake, bind at 1. rewrite perform_eq, Hconn.
    unfold bind at 1.
    destruct (try_finally _ _ _) as [t [df|e]]; cbn [fst] in Htr; subst t.
    + pose proof (group_rows_silent df []
                    ((h ++ [Event connect_call (Ok conn)]) ++
                     middle ++ [Event (ConnClose conn) o])) as Hsilent.
      destruct (group_rows df [] _) as [t' r']. cbn [fst] in *. subst t'.
      by rewrite app_nil_r.
    + reflexivity.
  - left. exists e. unfold load_config_from_snowflake, bind at 1.
    by rewrite perform_eq, Hconn.
Qed.

(** X18. The loader makes at most four calls, to the warehouse client and
    to the console only: translating the rules looks up and calls no
    check, and touches nothing of the validation engine. *)
Theorem loader_calls_no_check h :
  length (load_config_from_snowflake h).1 <= 4
  /\ Forall (fun e => op_of e ∈ [OpConnect; OpReadSql; OpPrint; OpClose])
       (load_config_from_snowflake h).1.
Proof.
  destruct (load_config_trace h)
    as [[e ->]|(conn & middle & o & -> & Hops & Hlen)].
  - split; [cbn; lia|repeat constructor].
  - split; [cbn; rewrite length_app; cbn; lia|].
    constructor; [apply list_elem_of_here|].
    apply Forall_app. split; [|repeat constructor].
    eapply Forall_impl; [exact Hops|]. intros e' He'.
    apply list_elem_of_further.
    apply elem_of_cons in He' as [->|He']; [apply list_elem_of_here|].
    apply list_elem_of_further.
    apply list_elem_of_singleton in He' as ->. apply list_elem_of_here.
Qed.

(** X5. An exception of the query that is not an [Exception] (an
    interrupt) is not caught: no warning is printed and no fallback is
    built; the connection is closed and the exception propagates, unless
    the close raises one of its own. *)
Theorem interrupted_query_is_not_caught h conn e :
  let connected := Event connect_call (Ok conn) in
  let queried := Event (ReadSql query conn) (Raise e) in
  let o := oracle _ (h ++ [connected; queried]) (ConnClose conn) in
  oracle _ h connect_call = Ok conn ->
  oracle _ (h ++ [connected]) (ReadSql query conn) = Raise e ->
  is_exception e = false ->
  load_config_from_snowflake h
  = ([connected; queried; Event (ConnClose conn) o],
     match o with Ok _ => Raise e | Raise e' => Raise e' end).
Proof.
  intros connected queried o Hconn Hread Hexc. subst o.
  destruct (oracle _ (h ++ [connected; queried]) (ConnClose conn)) as [[]|e']
    eqn:Hclose;
    unfold load_config_from_snowflake;
    (erewrite bind_ok by (rewrite perform_eq, Hconn; reflexivity));
    fold connected;
    (erewrite bind_raise; [reflexivity|]);
    unfold try_finally, try_except; rewrite perform_eq, Hread, Hexc;
    rewrite <- ?app_assoc; cbn [app]; fold queried;
    by rewrite perform_eq, Hclose.
Qed.

(** X6. An exception of [conn.close()] replaces the result of the loader:
    even when the query returned its rows, the loader raises and the
    configuration is lost. *)
Theorem failed_close_loses_the_config h conn df e :
  let connected := Event connect_call (Ok conn) in
  let queried := Event (ReadSql query conn) (Ok df) in
  oracle _ h connect_call = Ok conn ->
  oracle _ (h ++ [connected]) (ReadSql query conn) = Ok df ->
  oracle _ (h ++ [connected; queried]) (ConnClose conn) = Raise e ->
  load_config_from_snowflake h
  = ([connected; queried; Event (ConnClose conn) (Raise e)], Raise e).
Proof.
  intros connected queried Hconn Hread Hclose.
  unfold load_config_from_snowflake.
  erewrite bind_ok by (rewrite perform_eq, Hconn; reflexivity).
  fold connected.
  erewrite bind_raise; [reflexivity|].
  unfold try_finally, try_except. rewrite perform_eq, Hread.
  rewrite <- ?app_assoc. cbn [app]. fold queried.
  by rewrite perform_eq, Hclose.
Qed.

(** X7. When the query raises and printing the warning raises too, the
    fallback is not built: the connection is closed and the loader raises
    the exception of the print (or that of the close, if it raises). *)
Theorem failed_warning_skips_the_fallback h conn e e' :
  let connected := Event connect_call (Ok conn) in
  let queried := Event (ReadSql query conn) (Raise e) in
  let warned := Event (Print (warning e)) (Raise e') in
  let o := oracle _ (h ++ [connected; queried; warned]) (ConnClose conn) in
  oracle _ h connect_call = Ok conn ->
  oracle _ (h ++ [connected]) (ReadSql query conn) = Raise e ->
  is_exception e = true ->
  oracle _ (h ++ [connected; queried]) (Print (warning e)) = Raise e' ->
  load_config_from_snowflake h
  = ([connected; queried; warned; Event (ConnClose conn) o],
     match o with Ok _ => Raise e' | Raise e'' => Raise e'' end).
Proof.
  intros connected queried warned o Hconn Hread Hexc Hprint. subst o.
  destruct (oracle _ (h ++ [connected; queried; warned]) (ConnClose conn))
    as [[]|e''] eqn:Hclose;
    unfold load_config_from_snowflake;
    (erewrite bind_ok by (rewrite perform_eq, Hconn; reflexivity));
    fold connected;
    (erewrite bind_raise; [reflexivity|]);
    unfold try_finally, try_except, bind; rewrite perform_eq, Hread, Hexc;
    rewrite <- ?app_assoc; cbn [app]; fold queried;
    rewrite perform_eq, Hprint; fold warned;
    rewrite <- ?app_assoc; cbn [app];
    by rewrite perform_eq, Hclose.
Qed.

Lemma group_rows_raise good ps r rest g h e :
  Forall2 (fun r p => params_of_row r = Ok p) good ps ->
  params_of_row r = Raise e ->
  group_rows (good ++ r :: rest) g h = ([], Raise e).
Proof.
  intros Hgood Hr. revert g h.
  induction Hgood as [|r0 p good ps Hp _ IH]; intros g h; cbn [app group_rows].
  - apply bind_raise. unfold lift. by rewrite Hr.
  - erewrite bind_ok by (unfold lift; rewrite Hp; reflexivity).
    rewrite IH. reflexivity.
Qed.

(** X8. One row whose parameters [json.loads] rejects makes the loader
    raise that error, after the connection was closed: the rows before
    and after it are lost with it, and the fallback is not used. *)
Theorem malformed_params_lose_the_config h conn good ps r rest e :
  let df := good ++ r :: rest in
  let connected := Event connect_call (Ok conn) in
  let queried := Event (ReadSql query conn) (Ok df) in
  let closed := Event (ConnClose conn) (Ok tt) in
  oracle _ h connect_call = Ok conn ->
  oracle _ (h ++ [connected]) (ReadSql query conn) = Ok df ->
  oracle _ (h ++ [connected; queried]) (ConnClose conn) = Ok tt ->
  Forall2 (fun r p => params_of_row r = Ok p) good ps ->
  params_of_row r = Raise e ->
  load_config_from_snowflake h = ([connected; queried; closed], Raise e).
Proof.
  intros df connected queried closed Hconn Hread Hclose Hgood Hr.
  unfold load_config_from_snowflake.
  erewrite bind_ok by (rewrite perform_eq, Hconn; reflexivity).
  fold connected.
  erewrite bind_ok with (t := [queried; closed]) (a := df).
  - subst df. erewrite group_rows_raise by eassumption. reflexivity.
  - unfold try_finally, try_except. rewrite perform_eq, Hread.
    rewrite <- ?app_assoc. cbn [app]. fold queried.
    by rewrite perform_eq, Hclose.
Qed.

(** The loader when everything succeeds. *)
Lemma load_config_ok h conn df ps :
  let connected := Event connect_call (Ok conn) in
  let queried := Event (ReadSql query conn) (Ok df) in
  let closed := Event (ConnClose conn) (Ok tt) in
  oracle _ h connect_call = Ok conn ->
  oracle _ (h ++ [connected]) (ReadSql query conn) = Ok df ->
  oracle _ (h ++ [connected; queried]) (ConnClose conn) = Ok tt ->
  Forall2 (fun r p => params_of_row r = Ok p) df ps ->
  load_config_from_snowflake h
  = ([connected; queried; closed],
     Ok (fold_left (fun g rp => dd_append g (table_name rp.1) (translate rp))
           (zip df ps) [])).
Proof.
  intros connected queried closed Hconn Hread Hclose Hps.
  unfold load_config_from_snowflake.
  erewrite bind_ok by (rewrite perform_eq, Hconn; reflexivity).
  erewrite bind_ok with (t := [queried; closed]) (a := df).
  - erewrite group_rows_ok by eassumption. reflexivity.
  - unfold try_finally, try_except.
    rewrite !perform_eq. fold connected. rewrite Hread.
    rewrite <- !app_assoc. cbn [app]. rewrite perform_eq. fold queried.
    rewrite Hclose. reflexivity.
Qed.

Lemma fold_dd_append_keys (rps : list (row * value)) g :
  map fst (fold_left (fun g rp => dd_append g (table_name rp.1) (translate rp)) rps g)
  = fold_left (fun acc k => if decide (k ∈ acc) then acc else acc ++ [k])
      (map (fun rp => table_name rp.1) rps) (map fst g).
Proof.
  revert g. induction rps as [|rp rps IH]; intros g; [done|].
  cbn [fold_left map]. by rewrite IH, dd_append_keys.
Qed.

Lemma fold_seen_first_occurrences (l acc : list string) :
  fold_left (fun acc k => if decide (k ∈ acc) then acc else acc ++ [k]) l acc
  = acc ++ filter (fun y => y ∉ acc) (first_occurrences l).
Proof.
  revert acc. induction l as [|x l IH]; intros acc.
  - cbn. by rewrite app_nil_r.
  - cbn [fold_left first_occurrences]. rewrite IH.
    destruct (decide (x ∈ acc)) as [Hin|Hin].
    + rewrite filter_cons_False by (intros Hx; by apply Hx).
      f_equal. rewrite list_filter_filter. apply list_filter_iff.
      intros y. split; [|by intros [? _]].
      intros Hy. split; [done|]. by intros ->.
    + rewrite filter_cons_True by done. rewrite <- app_assoc. cbn [app].
      do 2 f_equal. rewrite list_filter_filter. apply list_filter_iff.
      intros y. rewrite elem_of_app, list_elem_of_singleton. split.
      * intros H. split; intros ?; apply H; [by left|by right].
      * intros [H1 H2] [?|?]; [by apply H1|by apply H2].
Qed.

(** X9. The keys of the loaded configuration are the table names of the
    rows, each once, in the order in which the tables first appear in the
    frame: this is the order in which the orchestrator goes through the
    tables. *)
Theorem tables_are_kept_in_order_of_first_row h conn df ps :
  let connected := Event connect_call (Ok conn) in
  let queried := Event (ReadSql query conn) (Ok df) in
  let closed := Event (ConnClose conn) (Ok tt) in
  oracle _ h connect_call = Ok conn ->
  oracle _ (h ++ [connected]) (ReadSql query conn) = Ok df ->
  oracle _ (h ++ [connected; queried]) (ConnClose conn) = Ok tt ->
  Forall2 (fun r p => params_of_row r = Ok p) df ps ->
  exists grouped,
    load_config_from_snowflake h = ([connected; queried; closed], Ok grouped)
    /\ map fst grouped = first_occurrences (map table_name df).
Proof.
  intros connected queried closed Hconn Hread Hclose Hps.
  eexists. split; [by apply load_config_ok|].
  rewrite fold_dd_append_keys, fold_seen_first_occurrences. cbn [map app].
  rewrite <- (fst_zip df ps) at 2 by (apply Forall2_length in Hps; lia).
  rewrite <- list_fmap_compose.
  rewrite (list_filter_iff _ (fun _ => True)); [|intros y; split; [done|]].
  - induction (first_occurrences _) as [|y l IH]; [done|].
    rewrite filter_cons_True by done. by rewrite IH.
  - intros _. apply not_elem_of_nil.
Qed.

Lemma params_of_row_absent r :
  is_truthy (params_json r) = false ->
  params_of_row r = Ok (VDict ∅).
Proof. unfold params_of_row. by intros ->. Qed.

Lemma absent_params_parse df :
  Forall (fun r => is_truthy (params_json r) = false) df ->
  Forall2 (fun r p => params_of_row r = Ok p) df (replicate (length df) (VDict ∅)).
Proof.
  induction 1 as [|r df Hr _ IH]; [constructor|].
  cbn [length replicate]. constructor; [by apply params_of_row_absent|exact IH].
Qed.

Lemma fold_dd_append_Forall (P : closure -> Prop) (rps : list (row * value)) g :
  Forall (fun rp => P (translate rp)) rps ->
  Forall (fun item => Forall P item.2) g ->
  Forall (fun item => Forall P item.2)
    (fold_left (fun g rp => dd_append g (table_name rp.1) (translate rp)) rps g).
Proof.
  intros Hrps. revert g. induction Hrps as [|rp rps Hrp _ IH]; intros g Hg; [done|].
  cbn [fold_left]. apply IH. by apply dd_append_Forall.
Qed.

(** X21. Rows whose parameter cell is false in Python ([None], the empty
    text) never reach [json.loads]: whatever the parser would do, a frame
    of such rows loads, and every rule of the configuration has the empty
    parameters.  (A NULL that the frame shows as [nan] is true in Python
    and is not such a cell.) *)
Theorem rows_without_params_always_load h conn df :
  let connected := Event connect_call (Ok conn) in
  let queried := Event (ReadSql query conn) (Ok df) in
  let closed := Event (ConnClose conn) (Ok tt) in
  oracle _ h connect_call = Ok conn ->
  oracle _ (h ++ [connected]) (ReadSql query conn) = Ok df ->
  oracle _ (h ++ [connected; queried]) (ConnClose conn) = Ok tt ->
  Forall (fun r => is_truthy (params_json r) = false) df ->
  exists grouped,
    load_config_from_snowflake h = ([connected; queried; closed], Ok grouped)
    /\ Forall (fun item =>
                 Forall (fun f => exists ty col,
                           f = build_expectation_function ty col (VDict ∅)) item.2)
         grouped.
Proof.
  intros connected queried closed Hconn Hread Hclose Hdf.
  pose proof (absent_params_parse df Hdf) as Hps.
  eexists. split; [by apply load_config_ok|].
  apply fold_dd_append_Forall; [|constructor].
  apply Forall_forall. intros [r p] Hin. unfold translate. cbn [fst snd].
  apply elem_of_zip_r in Hin. apply elem_of_replicate in Hin as [-> _].
  by eexists _, _.
Qed.

(** ** Further properties of the orchestrator *)

Lemma within_no_asset lo hi t : within lo hi t -> 7 < lo -> tables_monitored t = [].
Proof.
  intros Hw Hlo. induction Hw as [|e t He _ IH]; [done|].
  rewrite tables_monitored_cons, IH.
  destruct e as [T c o]. destruct c; try done. cbn in He. lia.
Qed.

Lemma within_count o lo hi t :
  within lo hi t ->
  (forall e, op_of e = o -> step_of e < lo \/ hi < step_of e) ->
  count_op o t = 0.
Proof.
  intros Hw Ho. induction Hw as [|e t He _ IH]; [done|].
  rewrite count_op_cons, IH. rewrite decide_False; [done|].
  intros Heq. specialize (Ho e Heq). lia.
Qed.

Lemma tidy_validate_table context datasource_name asset_name suite_name table fns :
  Forall built fns ->
  tidy 10 19 (validate_table context datasource_name asset_name suite_name table fns).
Proof.
  intros Hfns. unfold validate_table.
  apply (tidy_bind _ _ 10 10 19); [apply tidy_perform| |lia..].
  intros _ _ validator _.
  apply (tidy_bind _ _ 11 12 19); [by apply tidy_rules| |lia..]. intros _ _ _ _.
  apply (tidy_bind _ _ 13 13 19); [apply tidy_perform| |lia..]. intros _ _ _ _.
  apply (tidy_bind _ _ 14 14 19); [apply tidy_perform| |lia..].
  intros _ _ checkpoint _.
  apply (tidy_bind _ _ 15 15 19); [apply tidy_perform| |lia..]. intros _ _ _ _.
  apply (tidy_bind _ _ 16 16 19); [apply tidy_perform| |lia..]. intros _ _ result _.
  apply (tidy_bind _ _ 17 17 19); [apply tidy_perform| |lia..]. intros _ _ _ _.
  apply (tidy_bind _ _ 18 18 19); [apply tidy_perform| |lia..]. intros _ _ _ _.
  rewrite <- (step_of_verdict result table). apply tidy_perform.
Qed.

(** X13. When the suite of a table can be fetched, no suite is created:
    the pass goes on with the rest of the loop body, and nowhere in the
    pass is [add_expectation_suite] called. *)
Theorem existing_suite_is_not_created
    context datasource datasource_name schema table fns h asset :
  let suite := suite_name_of table in
  let asset_name := asset_name_of schema table in
  let added := Event (AddTableAsset datasource asset_name table schema) (Ok asset) in
  let found := Event (GetExpectationSuite context suite) (Ok tt) in
  let rest := validate_table context datasource_name asset_name suite table fns
                (h ++ [added; found]) in
  Forall built fns ->
  oracle _ h (AddTableAsset datasource asset_name table schema) = Ok asset ->
  oracle _ (h ++ [added]) (GetExpectationSuite context suite) = Ok tt ->
  monitor_table context datasource datasource_name (Some schema) (table, fns) h
    = (added :: found :: rest.1, rest.2)
  /\ count_op OpAddSuite (added :: found :: rest.1) = 0.
Proof.
  intros suite asset_name added found rest Hfns Hasset Hget. split.
  - unfold monitor_table. fold suite asset_name.
    erewrite bind_ok by (rewrite perform_eq, Hasset; reflexivity).
    fold added. erewrite bind_ok with (t := [found]) (a := tt).
    + rewrite <- ?app_assoc. reflexivity.
    + unfold try_except. by rewrite perform_eq, Hget.
  - rewrite !count_op_cons. cbn [op_of op_of_call].
    rewrite !decide_False by done.
    pose proof (tidy_validate_table context datasource_name asset_name suite
                  table fns Hfns (h ++ [added; found])) as (_ & Hw & _).
    fold rest in Hw. rewrite (within_count _ _ _ _ Hw); [done|].
    intros [T c o] Hop. destruct c; try discriminate Hop. cbn. lia.
Qed.

(** X14. Only an [Exception] of the fetch leads to the creation of the
    suite: another exception (an interrupt) ends the pass at once, with no
    suite created and no validator obtained. *)
Theorem interrupted_fetch_is_not_caught
    context datasource datasource_name schema table fns h asset e :
  let suite := suite_name_of table in
  let asset_name := asset_name_of schema table in
  let added := Event (AddTableAsset datasource asset_name table schema) (Ok asset) in
  let missing := Event (GetExpectationSuite context suite) (Raise e) in
  oracle _ h (AddTableAsset datasource asset_name table schema) = Ok asset ->
  oracle _ (h ++ [added]) (GetExpectationSuite context suite) = Raise e ->
  is_exception e = false ->
  monitor_table context datasource datasource_name (Some schema) (table, fns) h
    = ([added; missing], Raise e).
Proof.
  intros suite asset_name added missing Hasset Hget He.
  unfold monitor_table. fold suite asset_name.
  erewrite bind_ok by (rewrite perform_eq, Hasset; reflexivity).
  fold added. erewrite bind_raise; [reflexivity|].
  unfold try_except. by rewrite perform_eq, Hget, He.
Qed.

(** X15. When the suite is missing and cannot be created either, the
    pass ends on the exception of the creation: no validator is obtained
    and no rule is applied. *)
Theorem failed_creation_ends_the_pass
    context datasource datasource_name schema table fns h asset e e' :
  let suite := suite_name_of table in
  let asset_name := asset_name_of schema table in
  let added := Event (AddTableAsset datasource asset_name table schema) (Ok asset) in
  let missing := Event (GetExpectationSuite context suite) (Raise e) in
  oracle _ h (AddTableAsset datasource asset_name table schema) = Ok asset ->
  oracle _ (h ++ [added]) (GetExpectationSuite context suite) = Raise e ->
  is_exception e = true ->
  oracle _ (h ++ [added; missing]) (AddExpectationSuite context suite) = Raise e' ->
  monitor_table context datasource datasource_name (Some schema) (table, fns) h
    = ([added; missing; Event (AddExpectationSuite context suite) (Raise e')],
       Raise e').
Proof.
  intros suite asset_name added missing Hasset Hget He Hadd.
  unfold monitor_table. fold suite asset_name.
  erewrite bind_ok by (rewrite perform_eq, Hasset; reflexivity).
  fold added. erewrite bind_raise; [reflexivity|].
  erewrite try_except_caught; [|rewrite perform_eq, Hget; reflexivity|done].
  fold missing. rewrite <- ?app_assoc. cbn [app].
  by rewrite perform_eq, Hadd.
Qed.

(** The check calls of rules that all returned did not fail. *)
Lemma rules_applied_returned validator h fs t :
  Forall built fs -> rules_applied validator h fs t ->
  Forall (fun e => failed e = false) t.
Proof.
  intros Hfs Happ. induction Happ as [|h f fs t ts Hf Happ IH]; [done|].
  apply Forall_cons in Hfs as [Hb Hfs].
  destruct (built_inv_ok _ _ _ _ _ Hb Hf) as (ty & m & args & kwargs & ->).
  cbn [app]. repeat constructor. by apply IH.
Qed.

(** The part of the loop body that follows the save of the suite. *)
Lemma tidy_after_save context suite_name validator table :
  tidy 14 19
    (checkpoint <- perform (AddOrUpdateCheckpoint context
                              (suite_name +:+ "_checkpoint") validator) ;;
     checkpoint_result <- perform (CheckpointRun checkpoint) ;;
     result <- perform (Validate validator) ;;
     perform (BuildDataDocs context ["local_site"]) ;;
     perform (OpenDataDocs context) ;;
     perform (Print (verdict result table))).
Proof.
  apply (tidy_bind _ _ 14 14 19); [apply tidy_perform| |lia..].
  intros _ _ checkpoint _.
  apply (tidy_bind _ _ 15 15 19); [apply tidy_perform| |lia..]. intros _ _ _ _.
  apply (tidy_bind _ _ 16 16 19); [apply tidy_perform| |lia..]. intros _ _ result _.
  apply (tidy_bind _ _ 17 17 19); [apply tidy_perform| |lia..]. intros _ _ _ _.
  apply (tidy_bind _ _ 18 18 19); [apply tidy_perform| |lia..]. intros _ _ _ _.
  rewrite <- (step_of_verdict result table). apply tidy_perform.
Qed.

(** Calls of the steps after the rules are neither check calls nor
    saves. *)
Lemma within_after_rules o lo t :
  within lo 19 t -> 13 <= lo ->
  (o = OpCallMethod \/ (o = OpSaveSuite /\ 14 <= lo)) ->
  count_op o t = 0.
Proof.
  intros Hw Hlo Ho. apply (within_count _ _ _ _ Hw).
  intros [T c r] Hop.
  destruct Ho as [->|[-> Hlo']]; destruct c; try discriminate Hop; cbn; lia.
Qed.

(** The save of the suite and what follows it. *)
Lemma save_and_after_trace context suite_name validator table h :
  exists rest,
    ((perform (SaveExpectationSuite validator false) ;;
      checkpoint <- perform (AddOrUpdateCheckpoint context
                               (suite_name +:+ "_checkpoint") validator) ;;
      checkpoint_result <- perform (CheckpointRun checkpoint) ;;
      result <- perform (Validate validator) ;;
      perform (BuildDataDocs context ["local_site"]) ;;
      perform (OpenDataDocs context) ;;
      perform (Print (verdict result table))) h).1
    = Event (SaveExpectationSuite validator false)
        (oracle _ h (SaveExpectationSuite validator false)) :: rest
    /\ within 14 19 rest.
Proof.
  destruct (oracle _ h (SaveExpectationSuite validator false)) as [[]|e] eqn:Hs.
  - erewrite bind_ok by (rewrite perform_eq, Hs; reflexivity).
    eexists. split; [reflexivity|]. apply tidy_after_save.
  - erewrite bind_raise by (rewrite perform_eq, Hs; reflexivity).
    exists []. split; [done|constructor].
Qed.

(** X16. The suite of a table is saved at most once, and only after every
    rule of the table was applied and returned: when a save is in the
    trace, there are as many check calls as rules and none of them
    failed.  A rule that raises therefore leaves the stored suite as it
    was. *)
Theorem suite_is_saved_only_after_all_rules
    context datasource_name asset_name suite_name table fns h :
  Forall built fns ->
  let tr := (validate_table context datasource_name asset_name suite_name table fns h).1 in
  count_op OpSaveSuite tr = 0
  \/ (count_op OpSaveSuite tr = 1
      /\ count_op OpCallMethod tr = length fns
      /\ Forall (fun e => op_of e = OpCallMethod -> failed e = false) tr).
Proof.
  intros Hfns tr. subst tr.
  destruct (validate_table _ _ _ _ _ _ h) as [tr r] eqn:Hrun. cbn [fst].
  unfold validate_table, bind at 1 in Hrun. rewrite perform_eq in Hrun.
  destruct (oracle _ h (GetValidator _ _ _ _)) as [validator|e];
    [|injection Hrun as <- _; by left].
  unfold bind at 1 in Hrun.
  set (h1 := h ++ [Event (GetValidator context datasource_name asset_name suite_name)
                     (Ok validator)]) in *.
  pose proof (tidy_rules fns validator Hfns h1) as (_ & Hw & _).
  destruct (for_each fns (fun func => func validator) h1) as [t [[]|e]] eqn:Hrules;
    cbn [fst snd] in *.
  - right. apply for_each_rules_inv in Hrules.
    pose proof (rules_applied_returned _ _ _ _ Hfns Hrules) as Hret.
    apply rules_applied_count in Hrules as (_ & Hcall & Hother & _ & _); [|done].
    destruct (save_and_after_trace context suite_name validator table (h1 ++ t))
      as (rest & Htail & Hw').
    destruct (bind (perform (SaveExpectationSuite validator false)) _ _)
      as [tail r0]. cbn [fst] in Htail. subst tail.
    injection Hrun as <- _.
    split_and!.
    + count_ops. rewrite Hother by done.
      rewrite (within_after_rules OpSaveSuite 14 rest) by (auto; lia). done.
    + count_ops. rewrite Hcall.
      rewrite (within_after_rules OpCallMethod 14 rest) by (auto; lia). lia.
    + constructor; [done|]. apply Forall_app. split.
      * eapply Forall_impl; [exact Hret|]. by intros e He _.
      * constructor; [done|].
        eapply Forall_impl; [exact Hw'|]. intros [T c r1] He Hop.
        destruct c; try discriminate Hop. cbn in He. lia.
  - left. injection Hrun as <- _. cbn [app].
    rewrite count_op_cons, (within_count _ _ _ _ Hw).
    + cbn [op_of op_of_call]. by rewrite decide_False.
    + intros [T c o] Hop. destruct c; try discriminate Hop. cbn. lia.
Qed.

(** ** Further properties of a run *)

Lemma monitor_table_tables context datasource datasource_name schema_name table fns h :
  Forall built fns ->
  tables_monitored
    (monitor_table context datasource datasource_name schema_name (table, fns) h).1
  = match schema_name with Some _ => [table] | None => [] end.
Proof.
  intros Hfns. unfold monitor_table. destruct schema_name as [schema|]; [|done].
  destruct (oracle _ h (AddTableAsset datasource (asset_name_of schema table)
                          table schema)) as [asset|e] eqn:Hasset.
  - erewrite bind_ok by (rewrite perform_eq, Hasset; reflexivity).
    cbn [fst]. rewrite tables_monitored_app.
    assert (Hrest : tidy 8 19
      (try_except (perform (GetExpectationSuite context (suite_name_of table)))
                  (fun _ => perform (AddExpectationSuite context (suite_name_of table))) ;;
       validate_table context datasource_name (asset_name_of schema table)
         (suite_name_of table) table fns)).
    { apply (tidy_bind _ _ 8 9 19); [apply tidy_ensure_suite| |lia..].
      intros _ _ _ _. by apply tidy_validate_table. }
    destruct (Hrest (h ++ [Event (AddTableAsset datasource (asset_name_of schema table)
                                    table schema) (Ok asset)])) as (_ & Hw & _).
    rewrite (within_no_asset _ _ _ Hw) by lia. reflexivity.
  - erewrite bind_raise by (rewrite perform_eq, Hasset; reflexivity). done.
Qed.

Lemma for_each_tables_prefix context datasource datasource_name schema_name items h :
  Forall (fun item => Forall built item.2) items ->
  tables_monitored
    (for_each items (monitor_table context datasource datasource_name schema_name) h).1
  `prefix_of` map fst items.
Proof.
  intros Hitems. revert h.
  induction Hitems as [|[table fns] items Hb _ IH]; intros h; [done|].
  cbn [for_each map fst]. cbn [snd] in Hb.
  pose proof (monitor_table_tables context datasource datasource_name schema_name
                table fns h Hb) as Htab.
  destruct (monitor_table _ _ _ _ (table, fns) h) as [t [[]|e]] eqn:Hpass.
  - erewrite bind_ok by exact Hpass. cbn [fst] in *.
    rewrite tables_monitored_app, Htab.
    destruct schema_name; [by apply prefix_cons|discriminate Hpass].
  - erewrite bind_raise by exact Hpass. cbn [fst] in *. rewrite Htab.
    destruct schema_name; [apply prefix_cons|]; apply prefix_nil.
Qed.

(** X12. In every run, completed or not, the tables for which an asset is
    added are the first tables of the loaded configuration, in its order:
    no table is skipped and none is taken twice or out of turn, also when
    a pass raises. *)
Theorem tables_are_monitored_in_order h context loaded config :
  oracle _ h GetContext = Ok context ->
  load_config_from_snowflake (h ++ [Event GetContext (Ok context)])
    = (loaded, Ok config) ->
  tables_monitored (monitor_all_tables h).1 `prefix_of` map fst config.
Proof.
  intros Hctx Hload. unfold monitor_all_tables.
  erewrite bind_ok by (rewrite perform_eq, Hctx; reflexivity).
  erewrite bind_ok by exact Hload. cbn [fst app].
  pose proof (load_config_ops (h ++ [Event GetContext (Ok context)])) as Hops.
  rewrite Hload in Hops. cbn [fst] in Hops.
  rewrite tables_monitored_cons, tables_monitored_app.
  rewrite (tables_monitored_absent _ _ Hops) by not_among. cbn [app tables_monitored omap].
  pose proof (load_config_built _ _ _ Hload) as Hbuilt.
  set (h1 := (h ++ [Event GetContext (Ok context)]) ++ loaded).
  destruct (oracle _ h1 (AddOrUpdateSnowflake context "snowflake_ds" connection_string))
    as [[]|e] eqn:Hadd.
  - erewrite bind_ok by (rewrite perform_eq, Hadd; reflexivity).
    cbn [fst]. rewrite tables_monitored_app. cbn [app tables_monitored omap].
    destruct (oracle _ (h1 ++ [Event (AddOrUpdateSnowflake context "snowflake_ds"
                                        connection_string) (Ok tt)])
                (GetDatasource context "snowflake_ds")) as [datasource|e] eqn:Hds.
    + erewrite bind_ok by (rewrite perform_eq, Hds; reflexivity).
      cbn [fst]. rewrite tables_monitored_app. cbn [app tables_monitored omap].
      by apply for_each_tables_prefix.
    + erewrite bind_raise by (rewrite perform_eq, Hds; reflexivity).
      apply prefix_nil.
  - erewrite bind_raise by (rewrite perform_eq, Hadd; reflexivity).
    apply prefix_nil.
Qed.

(** X10. With [SNOWFLAKE_SCHEMA] unset and at least one table to monitor,
    the run registers the datasource and then raises an [AttributeError]
    before any call is made for the first table. *)
Theorem unset_schema_stops_before_the_first_table
    h context loaded item config datasource :
  let started := Event GetContext (Ok context) in
  let registered :=
    Event (AddOrUpdateSnowflake context "snowflake_ds" connection_string) (Ok tt) in
  let got := Event (GetDatasource context "snowflake_ds") (Ok datasource) in
  getenv "SNOWFLAKE_SCHEMA" = None ->
  oracle _ h GetContext = Ok context ->
  load_config_from_snowflake (h ++ [started]) = (loaded, Ok (item :: config)) ->
  oracle _ ((h ++ [started]) ++ loaded)
    (AddOrUpdateSnowflake context "snowflake_ds" connection_string) = Ok tt ->
  oracle _ (((h ++ [started]) ++ loaded) ++ [registered])
    (GetDatasource context "snowflake_ds") = Ok datasource ->
  monitor_all_tables h
  = (started :: loaded ++ [registered; got], Raise attribute_error_lower).
Proof.
  intros started registered got Hschema Hctx Hload Hadd Hds.
  subst started registered got. unfold monitor_all_tables.
  erewrite bind_ok by (rewrite perform_eq, Hctx; reflexivity).
  erewrite bind_ok by exact Hload.
  erewrite bind_ok by (rewrite perform_eq, Hadd; reflexivity).
  erewrite bind_ok by (rewrite perform_eq, Hds; reflexivity).
  rewrite Hschema. cbn [for_each].
  erewrite bind_raise.
  - cbn [fst snd app]. reflexivity.
  - destruct item. reflexivity.
Qed.

(** X11. When the query returns no row, the run registers the datasource
    and returns normally without a call for any table, whether or not a
    schema is set. *)
Theorem no_enabled_rule_no_table_pass h context conn datasource :
  let started := Event GetContext (Ok context) in
  let connected := Event connect_call (Ok conn) in
  let queried := Event (ReadSql query conn) (Ok []) in
  let closed := Event (ConnClose conn) (Ok tt) in
  let registered :=
    Event (AddOrUpdateSnowflake context "snowflake_ds" connection_string) (Ok tt) in
  let got := Event (GetDatasource context "snowflake_ds") (Ok datasource) in
  oracle _ h GetContext = Ok context ->
  oracle _ (h ++ [started]) connect_call = Ok conn ->
  oracle _ (h ++ [started; connected]) (ReadSql query conn) = Ok [] ->
  oracle _ (h ++ [started; connected; queried]) (ConnClose conn) = Ok tt ->
  oracle _ (h ++ [started; connected; queried; closed])
    (AddOrUpdateSnowflake context "snowflake_ds" connection_string) = Ok tt ->
  oracle _ (h ++ [started; connected; queried; closed; registered])
    (GetDatasource context "snowflake_ds") = Ok datasource ->
  monitor_all_tables h
  = ([started; connected; queried; closed; registered; got], Ok tt).
Proof.
  intros started connected queried closed registered got
    Hctx Hconn Hread Hclose Hadd Hds.
  subst started connected queried closed registered got.
  unfold monitor_all_tables.
  erewrite bind_ok by (rewrite perform_eq, Hctx; reflexivity).
  erewrite bind_ok with (t := [Event connect_call (Ok conn);
                               Event (ReadSql query conn) (Ok []);
                               Event (ConnClose conn) (Ok tt)]) (a := []).
  - rewrite <- ?app_assoc. cbn [app].
    erewrite bind_ok by (rewrite perform_eq, Hadd; reflexivity).
    rewrite <- ?app_assoc. cbn [app].
    erewrite bind_ok by (rewrite perform_eq, Hds; reflexivity).
    reflexivity.
  - rewrite (load_config_ok (h ++ [Event GetContext (Ok context)]) conn [] []);
      [reflexivity| | | |constructor];
      rewrite <- ?app_assoc; assumption.
Qed.

(** X17. When the warehouse cannot be reached the run ends there: after
    [get_context] and the failed [connect] nothing is called, no
    datasource is registered and the exception of [connect] is the outcome
    of the run. *)
Theorem unreachable_warehouse_ends_the_run h context e :
  let started := Event GetContext (Ok context) in
  oracle _ h GetContext = Ok context ->
  oracle _ (h ++ [started]) connect_call = Raise e ->
  monitor_all_tables h = ([started; Event connect_call (Raise e)], Raise e).
Proof.
  intros started Hctx Hconn. subst started. unfold monitor_all_tables.
  erewrite bind_ok by (rewrite perform_eq, Hctx; reflexivity).
  erewrite bind_raise; [reflexivity|].
  unfold load_config_from_snowflake. apply bind_raise.
  by rewrite perform_eq, Hconn.
Qed.

(** X19. Under one schema, two tables get the same asset name exactly
    when they get the same suite name, and the same holds for the names of
    their checkpoints: tables that share a suite also share the data asset
    and the checkpoint. *)
Theorem same_asset_iff_same_suite schema t1 t2 :
  (asset_name_of schema t1 = asset_name_of schema t2
   <-> suite_name_of t1 = suite_name_of t2)
  /\ (suite_name_of t1 +:+ "_checkpoint" = suite_name_of t2 +:+ "_checkpoint"
      <-> suite_name_of t1 = suite_name_of t2).
Proof.
  split.
  - rewrite suite_name_of_eq. unfold asset_name_of. split.
    + intros H. apply (inj (String.append (str_lower schema))) in H.
      by injection H.
    + by intros ->.
  - split; [apply string_append_inj_r|by intros ->].
Qed.

(** X20. The line printed for a table tells the outcome and the table:
    two verdicts are the same text only for the same [success] flag and
    the same table name. *)
Theorem verdict_tells_outcome_and_table r1 t1 r2 t2 :
  verdict r1 t1 = verdict r2 t2 -> success r1 = success r2 /\ t1 = t2.
Proof.
  unfold verdict. destruct (success r1), (success r2); simpl; intros H;
    try discriminate H; split; try reflexivity;
    injection H as H; exact (string_append_inj_r t1 t2 "." H).
Qed.

End Script.

(** ** The theorems on sample worlds *)

Lemma translated_rule_calls_its_check_witness :
  let unique := "expect_compound_columns_to_be_unique" in
  let not_null := "expect_column_values_to_not_be_null" in
  let row_count := "expect_table_row_count_to_be_between" in
  let columns := VList [VStr "A"; VStr "B"] in
  let with_list : gmap string value := {["column_list" := columns]} in
  let complete (d : gmap string value) := <["result_format" := VStr "COMPLETE"]> d in
  calm_world _ [] (GetAttr 7 unique) = Ok 0
  /\ build_expectation_function calm_world unique (VStr "ID") (VDict with_list) 7 []
     = ([Event (GetAttr 7 unique) (Ok 0);
         Event (CallMethod 0 [] (complete with_list)) (Ok tt)], Ok tt)
  /\ complete with_list !! "column_list" = Some columns
  /\ build_expectation_function calm_world not_null (VStr "ID") VNone 7 []
     = ([Event (GetAttr 7 not_null) (Ok 0);
         Event (CallMethod 0 [VStr "ID"] (complete ∅)) (Ok tt)], Ok tt)
  /\ build_expectation_function calm_world row_count VNone (VDict ∅) 7 []
     = ([Event (GetAttr 7 row_count) (Ok 0);
         Event (CallMethod 0 [] (complete ∅)) (Ok tt)], Ok tt)
  /\ build_expectation_function calm_world not_null (VStr "ID") (VStr "mostly") 7 []
     = ([Event (GetAttr 7 not_null) (Ok 0)], Raise type_error_not_a_mapping).
Proof.
  intros unique not_null row_count columns with_list complete.
  split; [reflexivity|]. split; [|split; [reflexivity|split; [|split]]].
  - destruct (proj1 (translated_rule_calls_its_check calm_world unique (VStr "ID")
                       (VDict with_list) 7 [] 0 eq_refl) with_list)
      as (args & kwargs & Hrun & -> & [(cl & _ & -> & _)|[(Hcl & _)|(Hcl & _)]]);
      [by left|exact Hrun|discriminate Hcl|discriminate Hcl].
  - destruct (proj1 (translated_rule_calls_its_check calm_world not_null (VStr "ID")
                       VNone 7 [] 0 eq_refl) ∅)
      as (args & kwargs & Hrun & -> & [(cl & Hcl & _)|[(_ & _ & ->)|(_ & Hcol & _)]]);
      [by right|discriminate Hcl|exact Hrun|discriminate Hcol].
  - destruct (proj1 (translated_rule_calls_its_check calm_world row_count VNone
                       (VDict ∅) 7 [] 0 eq_refl) ∅)
      as (args & kwargs & Hrun & -> & [(cl & Hcl & _)|[(_ & Hcol & _)|(_ & _ & ->)]]);
      [by left|discriminate Hcl|discriminate Hcol|exact Hrun].
  - apply (proj2 (translated_rule_calls_its_check calm_world not_null (VStr "ID")
                    (VStr "mostly") 7 [] 0 eq_refl)); [reflexivity|discriminate].
Defined.

(** C1 as the specification words it fails: a row whose parameters are
    the JSON array [[1]] is loaded like any other, and the closure of its
    rule looks the check up and raises without calling it. *)
Lemma rule_with_array_parameters_calls_no_check :
  let not_null := "expect_column_values_to_not_be_null" in
  let f := build_expectation_function array_world not_null (VStr "ID")
             (VList [VInt 1]) in
  load_config_from_snowflake array_world array_json_loads sample_environ []
  = ([Event (connect_call sample_environ) (Ok 0);
      Event (ReadSql query 0) (Ok array_df);
      Event (ConnClose 0) (Ok tt)],
     Ok [("ORDERS", [f])])
  /\ f 7 [] = ([Event (GetAttr 7 not_null) (Ok 0)], Raise type_error_not_a_mapping)
  /\ count_op OpCallMethod (f 7 []).1 = 0.
Proof. repeat split. Qed.

Lemma result_format_is_always_complete_witness :
  calm_world _ [] (GetAttr 7 "expect_column_values_to_not_be_null") = Ok 0
  /\ exists args kwargs o,
       build_expectation_function calm_world
         "expect_column_values_to_not_be_null" (VStr "ID")
         (VDict (<["result_format" := VStr "BASIC"]> ∅)) 7 []
       = ([Event (GetAttr 7 "expect_column_values_to_not_be_null") (Ok 0);
           Event (CallMethod 0 args kwargs) o], o)
       /\ kwargs !! "result_format" = Some (VStr "COMPLETE").
Proof.
  split; [reflexivity|].
  apply (proj2 (result_format_is_always_complete calm_world
                  "expect_column_values_to_not_be_null" (VStr "ID") 7 [])).
  reflexivity.
Defined.

Lemma column_list_takes_precedence_witness :
  let d : gmap string value := {["column_list" := VList [VStr "A"; VStr "B"]]} in
  d !! "column_list" = Some (VList [VStr "A"; VStr "B"])
  /\ (forall col',
        build_expectation_function calm_world "expect_compound_columns_to_be_unique"
          (VStr "ID") (VDict d) 7 []
        = build_expectation_function calm_world "expect_compound_columns_to_be_unique"
            col' (VDict d) 7 [])
  /\ (forall m,
        calm_world _ [] (GetAttr 7 "expect_compound_columns_to_be_unique") = Ok m ->
        exists kwargs o,
          build_expectation_function calm_world "expect_compound_columns_to_be_unique"
            (VStr "ID") (VDict d) 7 []
          = ([Event (GetAttr 7 "expect_compound_columns_to_be_unique") (Ok m);
              Event (CallMethod m [] kwargs) o], o)
          /\ kwargs !! "column_list" = Some (VList [VStr "A"; VStr "B"])).
Proof.
  split; [reflexivity|].
  apply (column_list_takes_precedence calm_world
           "expect_compound_columns_to_be_unique" (VStr "ID")
           {["column_list" := VList [VStr "A"; VStr "B"]]}
           (VList [VStr "A"; VStr "B"]) 7 []).
  reflexivity.
Defined.

Lemma load_config_falls_back_witness :
  let e := Exn true "connection reset" in
  let connected := Event (connect_call sample_environ) (Ok 0) in
  let queried := Event (ReadSql query 0) (Raise e) in
  let warned := Event (Print (warning e)) (Ok tt) in
  let closed := Event (ConnClose 0) (Ok tt) in
  query_fails _ [connected] (ReadSql query 0) = Raise e
  /\ load_config_from_snowflake query_fails sample_json_loads sample_environ [] =
       ([connected; queried; warned; closed],
        Ok [("TEST_DATES",
             [build_expectation_function query_fails
                "expect_column_values_to_not_be_null" (VStr "ID") (VDict ∅);
              build_expectation_function query_fails
                "expect_column_values_to_be_between" (VStr "EVENT_DATE")
                (VDict between_params)])]).
Proof.
  split; [reflexivity|].
  apply (load_config_falls_back query_fails sample_json_loads sample_environ
           [] 0 (Exn true "connection reset")); reflexivity.
Defined.

Lemma load_config_groups_by_table_witness :
  let ps := [VDict ∅; VDict {["column_list" := VList [VStr "A"; VStr "B"]]};
             VDict between_params; VDict ∅] in
  let connected := Event (connect_call sample_environ) (Ok 0) in
  let queried := Event (ReadSql query 0) (Ok sample_df) in
  let closed := Event (ConnClose 0) (Ok tt) in
  selected_by query sample_stored = Some sample_df
  /\ length sample_stored = 6
  /\ sample_df
     ≡ₚ map selected_columns (filter (fun r => is_enabled r = Some true) sample_stored)
  /\ exists grouped,
       load_config_from_snowflake calm_world sample_json_loads sample_environ []
         = ([connected; queried; closed], Ok grouped)
       /\ NoDup (map fst grouped)
       /\ (forall t, dd_get grouped t =
                     match rules_for calm_world t (zip sample_df ps) with
                     | [] => None
                     | rules => Some rules
                     end)
       /\ length (concat (map snd grouped)) = length sample_df.
Proof.
  split; [reflexivity|]. split; [reflexivity|].
  apply (load_config_groups_by_table calm_world sample_json_loads sample_environ
           [] 0 sample_stored sample_df); try reflexivity.
  - exists sample_df. split; reflexivity.
  - repeat constructor.
Defined.

(** C3 as the specification words it fails: the query succeeds and
    returns the enabled rows, and still the loader returns no
    dictionary, because the parameters of a row do not parse
    ([bad_json_world]) or because closing the connection raises
    ([close_fails]). *)
Lemma successful_query_may_return_no_mapping :
  let connected := Event (connect_call sample_environ) (Ok 0) in
  answers query bad_stored bad_df
  /\ load_config_from_snowflake bad_json_world sample_json_loads sample_environ []
     = ([connected; Event (ReadSql query 0) (Ok bad_df); Event (ConnClose 0) (Ok tt)],
        Raise (Exn true "JSONDecodeError"))
  /\ answers query sample_stored sample_df
  /\ load_config_from_snowflake close_fails sample_json_loads sample_environ []
     = ([connected; Event (ReadSql query 0) (Ok sample_df);
         Event (ConnClose 0) (Raise (Exn true "connection lost"))],
        Raise (Exn true "connection lost")).
Proof.
  split; [exists bad_df; split; reflexivity|]. split; [reflexivity|].
  split; [exists sample_df; split; reflexivity|]. reflexivity.
Qed.

Lemma connect_failure_propagates_witness :
  let e := Exn true "login failed" in
  connect_fails _ [] (connect_call sample_environ) = Raise e
  /\ load_config_from_snowflake connect_fails sample_json_loads sample_environ []
     = ([Event (connect_call sample_environ) (Raise e)], Raise e).
Proof.
  split; [reflexivity|].
  apply (connect_failure_propagates connect_fails sample_json_loads sample_environ
           [] (Exn true "login failed")).
  reflexivity.
Defined.

Lemma every_table_gets_the_steps_in_order_witness :
  let run := monitor_all_tables suite_missing sample_json_loads sample_environ
               lower_ascii [] in
  let passing := monitor_all_tables calm_world sample_json_loads sample_environ
                   lower_ascii [] in
  suite_missing _ [] (Validate 0) = Ok (ValidationResult false)
  /\ last run.1 = Some (Event (Print "Validation failed for EVENTS.") (Ok tt))
  /\ last passing.1 = Some (Event (Print "Validation passed for EVENTS.") (Ok tt))
  /\ run.2 = Ok tt
  /\ exists context loaded config datasource passes,
       let setup :=
         Event GetContext (Ok context) :: loaded ++
         [ Event (AddOrUpdateSnowflake context "snowflake_ds"
                    (connection_string sample_environ)) (Ok tt);
           Event (GetDatasource context "snowflake_ds") (Ok datasource) ] in
       load_config_from_snowflake suite_missing sample_json_loads sample_environ
         ([] ++ [Event GetContext (Ok context)]) = (loaded, Ok config)
       /\ all_passes lower_ascii context datasource "snowflake_ds"
            (getenv sample_environ "SNOWFLAKE_SCHEMA") ([] ++ setup) config passes
       /\ run.1 = setup ++ passes.
Proof.
  split; [reflexivity|].
  split; [vm_compute; reflexivity|].
  split; [vm_compute; reflexivity|].
  split; [vm_compute; reflexivity|].
  apply (every_table_gets_the_steps_in_order
           suite_missing sample_json_loads sample_environ lower_ascii []).
  vm_compute. reflexivity.
Defined.

Lemma missing_suite_is_created_witness :
  let e := Exn true "suite not found" in
  let fns := [build_expectation_function suite_missing
                "expect_column_values_to_not_be_null" (VStr "ID") (VDict ∅)] in
  let suite := suite_name_of lower_ascii "ORDERS" in
  let asset_name := asset_name_of lower_ascii "PUBLIC" "ORDERS" in
  let added := Event (AddTableAsset 5 asset_name "ORDERS" "PUBLIC") (Ok 0) in
  let missing := Event (GetExpectationSuite 0 suite) (Raise e) in
  let created := Event (AddExpectationSuite 0 suite) (Ok tt) in
  let rest := validate_table suite_missing 0 "snowflake_ds" asset_name suite "ORDERS" fns
                ([] ++ [added; missing; created]) in
  suite_missing _ ([] ++ [added]) (GetExpectationSuite 0 suite) = Raise e
  /\ monitor_table suite_missing lower_ascii 0 5 "snowflake_ds" (Some "PUBLIC")
       ("ORDERS", fns) []
     = (added :: missing :: created :: rest.1, rest.2)
  /\ exists o t,
       rest.1 = Event (GetValidator 0 "snowflake_ds" asset_name suite) o :: t.
Proof.
  split; [reflexivity|].
  apply (missing_suite_is_created suite_missing lower_ascii
           0 5 "snowflake_ds" "PUBLIC" "ORDERS"
           [build_expectation_function suite_missing
              "expect_column_values_to_not_be_null" (VStr "ID") (VDict ∅)]
           [] 0 (Exn true "suite not found")); reflexivity.
Defined.

Lemma run_is_a_single_linear_pass_witness :
  let run := monitor_all_tables suite_missing sample_json_loads sample_environ lower_ascii [] in
  run.2 = Ok tt
  /\ exists context loaded config,
       load_config_from_snowflake suite_missing sample_json_loads sample_environ
         ([] ++ [Event GetContext (Ok context)]) = (loaded, Ok config)
       /\ NoDup (map fst config)
       /\ tables_monitored run.1 = map fst config
       /\ count_op OpGetValidator run.1 = length config
       /\ count_op OpRunCheckpoint run.1 = length config
       /\ count_op OpValidate run.1 = length config
       /\ count_op OpCallMethod run.1 = length (concat (map snd config)).
Proof.
  split; [vm_compute; reflexivity|].
  apply (proj2 (proj2 (run_is_a_single_linear_pass
                         suite_missing sample_json_loads sample_environ lower_ascii []))).
  vm_compute. reflexivity.
Defined.

Lemma suite_is_named_after_the_table_witness :
  let run := monitor_all_tables case_world sample_json_loads sample_environ
               lower_ascii [] in
  suite_name_of lower_ascii "ORDERS" = "orders_suite"
  /\ (same_up_to_case "Orders" "ORDERS" = true
      /\ suite_name_of lower_ascii "Orders" = suite_name_of lower_ascii "ORDERS")
  /\ (same_up_to_case "ORDERS" "ORDER5" = false
      /\ suite_name_of lower_ascii "ORDERS" ≠ suite_name_of lower_ascii "ORDER5")
  /\ run.2 = Ok tt
  /\ exists context loaded config setup passes,
       load_config_from_snowflake case_world sample_json_loads sample_environ
         ([] ++ [Event GetContext (Ok context)]) = (loaded, Ok config)
       /\ run.1 = setup ++ concat passes
       /\ Forall (fun e => suites_named e = [] /\ validators_used e = []) setup
       /\ Forall2 (uses_own_suite lower_ascii) config passes.
Proof.
  split; [reflexivity|].
  pose proof (suite_is_named_after_the_table
                case_world sample_json_loads sample_environ lower_ascii [])
    as (_ & Hcase & Hrun).
  specialize (Hcase (fun s _ => eq_refl)).
  split; [split; [reflexivity|]|split; [split; [reflexivity|]|]].
  - apply (Hcase "Orders" "ORDERS"); reflexivity.
  - intros Heq. apply (Hcase "ORDERS" "ORDER5") in Heq; [discriminate Heq|reflexivity..].
  - split; [vm_compute; reflexivity|].
    apply Hrun. vm_compute. reflexivity.
Defined.

(** C7 as the specification words it fails: the configuration of
    [case_df] holds two distinct tables, [Orders] and [ORDERS]; both are
    processed, and both passes fetch and bind the one suite
    [orders_suite]. *)
Lemma distinct_tables_share_a_suite :
  let run := monitor_all_tables case_world sample_json_loads sample_environ
               lower_ascii [] in
  run.2 = Ok tt
  /\ tables_monitored run.1 = ["Orders"; "ORDERS"]
  /\ "Orders" ≠ "ORDERS"
  /\ suite_name_of lower_ascii "Orders" = suite_name_of lower_ascii "ORDERS"
  /\ concat (map suites_named run.1)
     = ["orders_suite"; "orders_suite"; "orders_suite"; "orders_suite"]
  /\ ~ (forall t1 t2 : string,
          t1 ≠ t2 -> suite_name_of lower_ascii t1 ≠ suite_name_of lower_ascii t2).
Proof.
  split; [vm_compute; reflexivity|].
  split; [vm_compute; reflexivity|].
  split; [discriminate|].
  split; [reflexivity|].
  split; [vm_compute; reflexivity|].
  intros H. apply (H "Orders" "ORDERS"); [discriminate|reflexivity].
Qed.

(** ** The further properties on sample worlds *)

Lemma falsy_params_are_no_params_witness :
  is_truthy VNone = false
  /\ build_expectation_function calm_world
       "expect_column_values_to_not_be_null" (VStr "ID") VNone 7 []
     = build_expectation_function calm_world
         "expect_column_values_to_not_be_null" (VStr "ID") (VDict ∅) 7 [].
Proof.
  split; [reflexivity|].
  apply (falsy_params_are_no_params calm_world
           "expect_column_values_to_not_be_null" (VStr "ID") VNone 7 []).
  reflexivity.
Defined.

Lemma non_mapping_params_raise_witness :
  is_truthy (VList [VInt 1]) = true
  /\ build_expectation_function calm_world
       "expect_column_values_to_not_be_null" (VStr "ID") (VList [VInt 1]) 7 []
     = ([Event (GetAttr 7 "expect_column_values_to_not_be_null") (Ok 0)],
        Raise type_error_not_a_mapping).
Proof.
  split; [reflexivity|].
  apply (non_mapping_params_raise calm_world
           "expect_column_values_to_not_be_null" (VStr "ID") (VList [VInt 1]) 7 [] 0);
    [reflexivity|reflexivity|discriminate].
Defined.

Lemma unknown_check_propagates_witness :
  let e := Exn true "AttributeError" in
  lookup_fails _ [] (GetAttr 7 "expect_nothing") = Raise e
  /\ build_expectation_function lookup_fails "expect_nothing" (VStr "ID") (VDict ∅) 7 []
     = ([Event (GetAttr 7 "expect_nothing") (Raise e)], Raise e).
Proof.
  split; [reflexivity|].
  apply (unknown_check_propagates lookup_fails "expect_nothing" (VStr "ID") (VDict ∅)
           7 [] (Exn true "AttributeError")).
  reflexivity.
Defined.

Lemma connection_is_always_closed_witness :
  query_fails _ [] (connect_call sample_environ) = Ok 0
  /\ exists middle o,
       (load_config_from_snowflake query_fails sample_json_loads sample_environ []).1
       = Event (connect_call sample_environ) (Ok 0)
           :: middle ++ [Event (ConnClose 0) o]
       /\ count_op OpClose middle = 0
       /\ count_op OpConnect middle = 0.
Proof.
  split; [reflexivity|].
  apply (connection_is_always_closed query_fails sample_json_loads sample_environ [] 0).
  reflexivity.
Defined.

Lemma interrupted_query_is_not_caught_witness :
  let e := Exn false "KeyboardInterrupt" in
  let connected := Event (connect_call sample_environ) (Ok 0) in
  let queried := Event (ReadSql query 0) (Raise e) in
  let o := query_interrupted _ ([] ++ [connected; queried]) (ConnClose 0) in
  is_exception e = false
  /\ load_config_from_snowflake query_interrupted sample_json_loads sample_environ []
     = ([connected; queried; Event (ConnClose 0) o],
        match o with Ok _ => Raise e | Raise e' => Raise e' end).
Proof.
  split; [reflexivity|].
  apply (interrupted_query_is_not_caught query_interrupted sample_json_loads
           sample_environ [] 0 (Exn false "KeyboardInterrupt")); reflexivity.
Defined.

Lemma failed_close_loses_the_config_witness :
  let e := Exn true "connection lost" in
  let connected := Event (connect_call sample_environ) (Ok 0) in
  let queried := Event (ReadSql query 0) (Ok sample_df) in
  close_fails _ ([] ++ [connected; queried]) (ConnClose 0) = Raise e
  /\ load_config_from_snowflake close_fails sample_json_loads sample_environ []
     = ([connected; queried; Event (ConnClose 0) (Raise e)], Raise e).
Proof.
  split; [reflexivity|].
  apply (failed_close_loses_the_config close_fails sample_json_loads sample_environ
           [] 0 sample_df (Exn true "connection lost")); reflexivity.
Defined.

Lemma failed_warning_skips_the_fallback_witness :
  let e := Exn true "connection reset" in
  let e' := Exn true "UnicodeEncodeError" in
  let connected := Event (connect_call sample_environ) (Ok 0) in
  let queried := Event (ReadSql query 0) (Raise e) in
  let warned := Event (Print (warning e)) (Raise e') in
  let o := print_fails _ ([] ++ [connected; queried; warned]) (ConnClose 0) in
  print_fails _ ([] ++ [connected; queried]) (Print (warning e)) = Raise e'
  /\ load_config_from_snowflake print_fails sample_json_loads sample_environ []
     = ([connected; queried; warned; Event (ConnClose 0) o],
        match o with Ok _ => Raise e' | Raise e'' => Raise e'' end).
Proof.
  split; [reflexivity|].
  apply (failed_warning_skips_the_fallback print_fails sample_json_loads sample_environ
           [] 0 (Exn true "connection reset") (Exn true "UnicodeEncodeError"));
    reflexivity.
Defined.

Lemma malformed_params_lose_the_config_witness :
  let e := Exn true "JSONDecodeError" in
  let good := [Row "ORDERS" (VStr "ID") "expect_column_values_to_not_be_null" VNone] in
  let r := Row "ORDERS" (VStr "DAY") "expect_column_values_to_be_between"
             (VStr "{min_value: 1") in
  let rest := [Row "EVENTS" VNone "expect_table_row_count_to_be_between" (VStr "{}")] in
  let connected := Event (connect_call sample_environ) (Ok 0) in
  let queried := Event (ReadSql query 0) (Ok (good ++ r :: rest)) in
  let closed := Event (ConnClose 0) (Ok tt) in
  params_of_row sample_json_loads r = Raise e
  /\ load_config_from_snowflake bad_json_world sample_json_loads sample_environ []
     = ([connected; queried; closed], Raise e).
Proof.
  split; [reflexivity|].
  apply (malformed_params_lose_the_config bad_json_world sample_json_loads
           sample_environ [] 0
           [Row "ORDERS" (VStr "ID") "expect_column_values_to_not_be_null" VNone]
           [VDict ∅]
           (Row "ORDERS" (VStr "DAY") "expect_column_values_to_be_between"
              (VStr "{min_value: 1"))
           [Row "EVENTS" VNone "expect_table_row_count_to_be_between" (VStr "{}")]
           (Exn true "JSONDecodeError")); try reflexivity.
  repeat constructor.
Defined.

Lemma tables_are_kept_in_order_of_first_row_witness :
  let connected := Event (connect_call sample_environ) (Ok 0) in
  let queried := Event (ReadSql query 0) (Ok sample_df) in
  let closed := Event (ConnClose 0) (Ok tt) in
  first_occurrences (map table_name sample_df) = ["ORDERS"; "EVENTS"]
  /\ exists grouped,
       load_config_from_snowflake calm_world sample_json_loads sample_environ []
         = ([connected; queried; closed], Ok grouped)
       /\ map fst grouped = first_occurrences (map table_name sample_df).
Proof.
  split; [reflexivity|].
  apply (tables_are_kept_in_order_of_first_row calm_world sample_json_loads
           sample_environ [] 0 sample_df
           [VDict ∅; VDict {["column_list" := VList [VStr "A"; VStr "B"]]};
            VDict between_params; VDict ∅]); try reflexivity.
  repeat constructor.
Defined.

Lemma unset_schema_stops_before_the_first_table_witness :
  let env := environ_without_schema in
  let started := Event GetContext (Ok 0) in
  let loaded := [Event (connect_call env) (Ok 1);
                 Event (ReadSql query 1) (Ok sample_df);
                 Event (ConnClose 1) (Ok tt)] in
  let registered :=
    Event (AddOrUpdateSnowflake 0 "snowflake_ds" (connection_string env)) (Ok tt) in
  let got := Event (GetDatasource 0 "snowflake_ds") (Ok 5) in
  getenv env "SNOWFLAKE_SCHEMA" = None
  /\ monitor_all_tables calm_world sample_json_loads env lower_ascii []
     = (started :: loaded ++ [registered; got], Raise attribute_error_lower).
Proof.
  split; [reflexivity|].
  eapply (unset_schema_stops_before_the_first_table calm_world sample_json_loads
            environ_without_schema lower_ascii [] 0 _ _ _ 5); reflexivity.
Defined.

Lemma no_enabled_rule_no_table_pass_witness :
  let env := environ_without_schema in
  let started := Event GetContext (Ok 0) in
  let connected := Event (connect_call env) (Ok 1) in
  let queried := Event (ReadSql query 1) (Ok []) in
  let closed := Event (ConnClose 1) (Ok tt) in
  let registered :=
    Event (AddOrUpdateSnowflake 0 "snowflake_ds" (connection_string env)) (Ok tt) in
  let got := Event (GetDatasource 0 "snowflake_ds") (Ok 5) in
  empty_world _ ([] ++ [started; connected]) (ReadSql query 1) = Ok []
  /\ monitor_all_tables empty_world sample_json_loads env lower_ascii []
     = ([started; connected; queried; closed; registered; got], Ok tt).
Proof.
  split; [reflexivity|].
  apply (no_enabled_rule_no_table_pass empty_world sample_json_loads
           environ_without_schema lower_ascii [] 0 1 5); reflexivity.
Defined.

Lemma tables_are_monitored_in_order_witness :
  let run := monitor_all_tables check_fails sample_json_loads sample_environ lower_ascii [] in
  let loaded := [Event (connect_call sample_environ) (Ok 1);
                 Event (ReadSql query 1) (Ok sample_df);
                 Event (ConnClose 1) (Ok tt)] in
  let config :=
    [("ORDERS",
      [build_expectation_function check_fails
         "expect_column_values_to_not_be_null" (VStr "ID") (VDict ∅);
       build_expectation_function check_fails
         "expect_column_values_to_be_between" (VStr "DAY") (VDict between_params)]);
     ("EVENTS",
      [build_expectation_function check_fails
         "expect_compound_columns_to_be_unique" VNone
         (VDict {["column_list" := VList [VStr "A"; VStr "B"]]});
       build_expectation_function check_fails
         "expect_table_row_count_to_be_between" (VStr "") (VDict ∅)])] in
  load_config_from_snowflake check_fails sample_json_loads sample_environ
    ([] ++ [Event GetContext (Ok 0)]) = (loaded, Ok config)
  /\ is_ok run.2 = false
  /\ tables_monitored run.1 = ["ORDERS"]
  /\ tables_monitored run.1 `prefix_of` map fst config.
Proof.
  split; [reflexivity|].
  split; [vm_compute; reflexivity|].
  split; [vm_compute; reflexivity|].
  eapply (tables_are_monitored_in_order check_fails sample_json_loads sample_environ lower_ascii
            [] 0); reflexivity.
Defined.

Lemma existing_suite_is_not_created_witness :
  let fns := [build_expectation_function calm_world
                "expect_column_values_to_not_be_null" (VStr "ID") (VDict ∅)] in
  let suite := suite_name_of lower_ascii "ORDERS" in
  let asset_name := asset_name_of lower_ascii "PUBLIC" "ORDERS" in
  let added := Event (AddTableAsset 5 asset_name "ORDERS" "PUBLIC") (Ok 0) in
  let found := Event (GetExpectationSuite 0 suite) (Ok tt) in
  let rest := validate_table calm_world 0 "snowflake_ds" asset_name suite "ORDERS" fns
                ([] ++ [added; found]) in
  calm_world _ ([] ++ [added]) (GetExpectationSuite 0 suite) = Ok tt
  /\ monitor_table calm_world lower_ascii 0 5 "snowflake_ds" (Some "PUBLIC") ("ORDERS", fns) []
     = (added :: found :: rest.1, rest.2)
  /\ count_op OpAddSuite (added :: found :: rest.1) = 0.
Proof.
  split; [reflexivity|].
  apply (existing_suite_is_not_created calm_world lower_ascii 0 5 "snowflake_ds" "PUBLIC" "ORDERS"
           [build_expectation_function calm_world
              "expect_column_values_to_not_be_null" (VStr "ID") (VDict ∅)] [] 0);
    [|reflexivity..].
  repeat constructor. by eexists _, _, _.
Defined.

Lemma interrupted_fetch_is_not_caught_witness :
  let e := Exn false "KeyboardInterrupt" in
  let suite := suite_name_of lower_ascii "ORDERS" in
  let asset_name := asset_name_of lower_ascii "PUBLIC" "ORDERS" in
  let added := Event (AddTableAsset 5 asset_name "ORDERS" "PUBLIC") (Ok 0) in
  let missing := Event (GetExpectationSuite 0 suite) (Raise e) in
  is_exception e = false
  /\ monitor_table fetch_interrupted lower_ascii 0 5 "snowflake_ds" (Some "PUBLIC") ("ORDERS", []) []
     = ([added; missing], Raise e).
Proof.
  split; [reflexivity|].
  apply (interrupted_fetch_is_not_caught fetch_interrupted lower_ascii 0 5 "snowflake_ds"
           "PUBLIC" "ORDERS" [] [] 0 (Exn false "KeyboardInterrupt")); reflexivity.
Defined.

Lemma failed_creation_ends_the_pass_witness :
  let e := Exn true "suite not found" in
  let e' := Exn true "store is read-only" in
  let suite := suite_name_of lower_ascii "ORDERS" in
  let asset_name := asset_name_of lower_ascii "PUBLIC" "ORDERS" in
  let added := Event (AddTableAsset 5 asset_name "ORDERS" "PUBLIC") (Ok 0) in
  let missing := Event (GetExpectationSuite 0 suite) (Raise e) in
  store_read_only _ ([] ++ [added; missing]) (AddExpectationSuite 0 suite) = Raise e'
  /\ monitor_table store_read_only lower_ascii 0 5 "snowflake_ds" (Some "PUBLIC") ("ORDERS", []) []
     = ([added; missing; Event (AddExpectationSuite 0 suite) (Raise e')], Raise e').
Proof.
  split; [reflexivity|].
  apply (failed_creation_ends_the_pass store_read_only lower_ascii 0 5 "snowflake_ds"
           "PUBLIC" "ORDERS" [] [] 0 (Exn true "suite not found")
           (Exn true "store is read-only")); reflexivity.
Defined.

Lemma suite_is_saved_only_after_all_rules_witness :
  let fns := [build_expectation_function check_fails
                "expect_column_values_to_not_be_null" (VStr "ID") (VDict ∅);
              build_expectation_function check_fails
                "expect_column_values_to_be_between" (VStr "DAY")
                (VDict between_params)] in
  let tr := (validate_table check_fails 0 "snowflake_ds" "public_orders"
               "orders_suite" "ORDERS" fns []).1 in
  Forall (built check_fails) fns
  /\ (count_op OpSaveSuite tr = 0
      \/ (count_op OpSaveSuite tr = 1
          /\ count_op OpCallMethod tr = length fns
          /\ Forall (fun e => op_of e = OpCallMethod -> failed e = false) tr)).
Proof.
  assert (Hb : Forall (built check_fails)
                 [build_expectation_function check_fails
                    "expect_column_values_to_not_be_null" (VStr "ID") (VDict ∅);
                  build_expectation_function check_fails
                    "expect_column_values_to_be_between" (VStr "DAY")
                    (VDict between_params)])
    by (repeat constructor; by eexists _, _, _).
  split; [exact Hb|].
  apply (suite_is_saved_only_after_all_rules check_fails 0 "snowflake_ds"
           "public_orders" "orders_suite" "ORDERS" _ [] Hb).
Defined.

Lemma unreachable_warehouse_ends_the_run_witness :
  let e := Exn true "login failed" in
  let started := Event GetContext (Ok 0) in
  connect_fails _ ([] ++ [started]) (connect_call sample_environ) = Raise e
  /\ monitor_all_tables connect_fails sample_json_loads sample_environ lower_ascii []
     = ([started; Event (connect_call sample_environ) (Raise e)], Raise e).
Proof.
  split; [reflexivity|].
  apply (unreachable_warehouse_ends_the_run connect_fails sample_json_loads
           sample_environ lower_ascii [] 0 (Exn true "login failed")); reflexivity.
Defined.

Lemma same_asset_iff_same_suite_witness :
  suite_name_of lower_ascii "Orders" = suite_name_of lower_ascii "ORDERS"
  /\ asset_name_of lower_ascii "PUBLIC" "Orders" = asset_name_of lower_ascii "PUBLIC" "ORDERS".
Proof.
  split; [reflexivity|].
  apply (proj1 (same_asset_iff_same_suite lower_ascii "PUBLIC" "Orders" "ORDERS")).
  reflexivity.
Defined.

Lemma verdict_tells_outcome_and_table_witness :
  verdict (ValidationResult true) "ORDERS" = "Validation passed for ORDERS."
  /\ success (ValidationResult true) = success (ValidationResult true)
  /\ "ORDERS" = "ORDERS".
Proof.
  split; [reflexivity|].
  apply (verdict_tells_outcome_and_table
           (ValidationResult true) "ORDERS" (ValidationResult true) "ORDERS").
  reflexivity.
Defined.

Lemma rows_without_params_always_load_witness :
  let df := [Row "ORDERS" (VStr "ID") "expect_column_values_to_not_be_null" VNone;
             Row "ORDERS" (VStr "DAY") "expect_column_values_to_be_unique" (VStr "")] in
  let raising : string -> outcome value := fun _ => Raise (Exn true "JSONDecodeError") in
  let world := sample_oracle no_failure df true in
  let connected := Event (connect_call sample_environ) (Ok 0) in
  let queried := Event (ReadSql query 0) (Ok df) in
  let closed := Event (ConnClose 0) (Ok tt) in
  params_of_row raising
    (Row "ORDERS" (VStr "ID") "expect_column_values_to_not_be_null" (VFloat S754_nan))
  = Raise type_error_json_input
  /\ exists grouped,
       load_config_from_snowflake world raising sample_environ []
         = ([connected; queried; closed], Ok grouped)
       /\ Forall (fun item =>
                    Forall (fun f => exists ty col,
                              f = build_expectation_function world ty col (VDict ∅))
                      item.2)
            grouped.
Proof.
  split; [reflexivity|].
  apply (rows_without_params_always_load
           (sample_oracle no_failure
              [Row "ORDERS" (VStr "ID") "expect_column_values_to_not_be_null" VNone;
               Row "ORDERS" (VStr "DAY") "expect_column_values_to_be_unique" (VStr "")]
              true)
           (fun _ => Raise (Exn true "JSONDecodeError")) sample_environ [] 0);
    try reflexivity.
  repeat constructor.
Defined.
